(** * Video asset manager (server.ts): upload, delete and rename handlers

    A shallow embedding of the request handlers of [server.ts] that touch
    the object store (the R2 bucket), the [video_metadata] table and the
    [upload_history] table, together with the string functions they use
    ([String.prototype.replace] with the allow-list regular expression,
    [startsWith], [endsWith], Node's [path.extname]). *)

From Stdlib Require Import ZArith NArith Ascii String DecimalString
  DecimalPos DecimalZ.
From stdpp Require Import gmap list fin_maps sorting.

Local Open Scope Z_scope.

(** ** JavaScript strings

    A JavaScript string is a sequence of UTF-16 code units.  The regular
    expression of the handlers carries no [u] flag, so it looks at one code
    unit at a time, and so do [startsWith], [endsWith], [===] and
    [path.extname]. *)

Module JS.

Definition code_unit := N.
Abbreviation jsstring := (list code_unit).

(** A string literal of the source, one code unit per ASCII character. *)
Definition lit (s : string) : jsstring :=
  map N_of_ascii (list_ascii_of_string s).

(** [s.startsWith(p)] *)
Definition startsWith (s p : jsstring) : bool :=
  bool_decide (take (length p) s = p).

(** [s.endsWith(e)]: compares the last [e.length] code units of [s]. *)
Definition endsWith (s e : jsstring) : bool :=
  if (length s <? length e)%nat then false
  else bool_decide (drop (length s - length e)%nat s = e).

(** [s.slice(from, to)] for integer arguments: negative indices count
    from the end, both ends are clamped to the string. *)
Definition slice (s : jsstring) (from to : Z) : jsstring :=
  let len := Z.of_nat (length s) in
  let k := if from <? 0 then Z.max (len + from) 0 else Z.min from len in
  let final := if to <? 0 then Z.max (len + to) 0 else Z.min to len in
  take (Z.to_nat (final - k)) (drop (Z.to_nat k) s).

(** [s.charCodeAt(i)] for an index inside the string (NaN outside, which
    equals no character code; the model returns a value no code unit has). *)
Definition charCodeAt (s : jsstring) (i : nat) : Z :=
  match s !! i with
  | Some c => Z.of_N c
  | None => -1
  end.

(** Truthiness of a string: only the empty string is falsy. *)
Definition truthy (s : jsstring) : bool :=
  match s with [] => false | _ => true end.

(** Template-literal interpolation of an integral number. *)
Definition of_number (z : Z) : jsstring :=
  lit (NilZero.string_of_int (Z.to_int z)).

End JS.
Import JS.

(** ** The sanitizing replacement

    [name.replace(/[^a-zA-Z0-9.-]/g, "_")], used by the upload handler on
    [file.originalname] and by the rename handler on [newName]. *)

(** Membership in the character class [a-zA-Z0-9.-]. *)
Definition in_class (c : code_unit) : bool :=
  ((97 <=? c) && (c <=? 122) ||      (* a-z *)
   (65 <=? c) && (c <=? 90) ||       (* A-Z *)
   (48 <=? c) && (c <=? 57) ||       (* 0-9 *)
   (c =? 46) ||                      (* .   *)
   (c =? 45))%N.                     (* -   *)

Definition underscore : code_unit := 95%N.
Definition slash : code_unit := 47%N.

Definition replace_unit (c : code_unit) : code_unit :=
  if in_class c then c else underscore.

Definition sanitize (name : jsstring) : jsstring :=
  map replace_unit name.

(** The set [A-Za-z0-9._-] of the specification. *)
Definition allowed (c : code_unit) : bool :=
  in_class c || (c =? underscore)%N.

(** ** Node's [path.extname] (POSIX flavour)

    The function is part of the Node runtime, not of the repository; the
    model follows its loop, which walks the path from the last code unit to
    the first and keeps five variables. *)

Module Path.

Definition CHAR_FORWARD_SLASH : Z := 47.
Definition CHAR_DOT : Z := 46.

Record vars := Vars {
  startDot : Z;
  startPart : Z;
  end_ : Z;
  matchedSlash : bool;
  preDotState : Z
}.

Definition init : vars :=
  {| startDot := -1; startPart := 0; end_ := -1;
     matchedSlash := true; preDotState := 0 |}.

(** [scan path n v] runs the iterations [i = n-1, n-2, ..., 0] of
    [for (let i = path.length - 1; i >= 0; --i)] from the variables [v]. *)
Fixpoint scan (path : jsstring) (n : nat) (v : vars) : vars :=
  match n with
  | O => v
  | S i =>
    let code := charCodeAt path i in
    if code =? CHAR_FORWARD_SLASH then
      if negb (matchedSlash v) then
        (* a separator that is not trailing: stop *)
        {| startDot := startDot v; startPart := Z.of_nat i + 1;
           end_ := end_ v; matchedSlash := matchedSlash v;
           preDotState := preDotState v |}
      else scan path i v
    else
      let v1 :=
        if end_ v =? -1 then
          {| startDot := startDot v; startPart := startPart v;
             end_ := Z.of_nat i + 1; matchedSlash := false;
             preDotState := preDotState v |}
        else v in
      let v2 :=
        if code =? CHAR_DOT then
          if startDot v1 =? -1 then
            {| startDot := Z.of_nat i; startPart := startPart v1;
               end_ := end_ v1; matchedSlash := matchedSlash v1;
               preDotState := preDotState v1 |}
          else if negb (preDotState v1 =? 1) then
            {| startDot := startDot v1; startPart := startPart v1;
               end_ := end_ v1; matchedSlash := matchedSlash v1;
               preDotState := 1 |}
          else v1
        else if negb (startDot v1 =? -1) then
          {| startDot := startDot v1; startPart := startPart v1;
             end_ := end_ v1; matchedSlash := matchedSlash v1;
             preDotState := -1 |}
        else v1 in
      scan path i v2
  end.

Definition extname (path : jsstring) : jsstring :=
  let v := scan path (length path) init in
  if (startDot v =? -1) || (end_ v =? -1) || (preDotState v =? 0) ||
     ((preDotState v =? 1) && (startDot v =? end_ v - 1) &&
      (startDot v =? startPart v + 1))
  then []
  else slice path (startDot v) (end_ v).

(** What holds of the variables before the iteration at index [n - 1]. *)
Record good (path : jsstring) (n : nat) (v : vars) : Prop := {
  good_end : end_ v <> -1 ->
    Z.of_nat n <= end_ v <= Z.of_nat (length path) /\
    forall j : nat, Z.of_nat n <= Z.of_nat j < end_ v -> path !! j <> Some slash;
  good_dot : startDot v <> -1 ->
    end_ v <> -1 /\ Z.of_nat n <= startDot v < end_ v;
  good_trailing : matchedSlash v = true -> end_ v = -1
}.

(** What holds of them after the loop. *)
Definition settled (path : jsstring) (v : vars) : Prop :=
  startDot v <> -1 -> end_ v <> -1 ->
  0 <= startDot v < end_ v /\ end_ v <= Z.of_nat (length path) /\
  forall j : nat, startDot v <= Z.of_nat j < end_ v -> path !! j <> Some slash.

End Path.

(** ** The key computed by the rename handler

    [const extension = path.extname(oldKey);]
    [const sanitizedNewName = newName.replace(/[^a-zA-Z0-9.-]/g, "_");]
    [const newKey = `videos/${sanitizedNewName}${sanitizedNewName.endsWith(extension) ? '' : extension}`;] *)

Definition prefix_videos : jsstring := lit "videos/".

Definition renameKey (oldKey newName : jsstring) : jsstring :=
  let extension := Path.extname oldKey in
  let sanitizedNewName := sanitize newName in
  prefix_videos ++ sanitizedNewName ++
    (if endsWith sanitizedNewName extension then [] else extension).

(** ** The stores

    All durable state lives outside the process: the bucket of the object
    store and the two tables [video_metadata] and [upload_history] of the
    SQLite database. *)

(** The UTC calendar month of an instant is all the handlers look at:
    [new Date().toISOString().slice(0, 7)] and
    [strftime('%Y-%m', timestamp)] both read the year and the month. *)
Record Timestamp := { ts_year : Z; ts_month : Z; ts_rest : Z }.

Definition month_key : Type := Z * Z.

Definition month_of (t : Timestamp) : month_key := (ts_year t, ts_month t).

Record S3Object := { Body : list N; ContentType : jsstring }.

(** A row of [video_metadata], keyed by [video_key] (the primary key). *)
Record Uploader := { uploader_id : jsstring; uploader_name : jsstring }.

(** A row of [upload_history]. *)
Record HistoryRow := { id : Z; size : Z; timestamp : Timestamp }.

Record World := {
  bucket : gmap jsstring S3Object;
  video_metadata : gmap jsstring Uploader;
  upload_history : list HistoryRow
}.

(** The commands sent through [r2Client.send].  The bucket is the single
    configured one; [CopySource] is [`${bucketName}/${oldKey}`], an object
    of that same bucket, and is kept as its key. *)
Inductive Command :=
| PutObjectCommand (Key : jsstring) (object : S3Object)
| CopyObjectCommand (CopySource Key : jsstring)
| DeleteObjectCommand (Key : jsstring).

(** The writing statements run through [db.prepare(...).run(...)]. *)
Inductive Statement :=
| InsertVideoMetadata (video_key uploader_id uploader_name : jsstring)
| DeleteVideoMetadata (video_key : jsstring)
| UpdateVideoKey (new_key old_key : jsstring)
| InsertUploadHistory (size : Z).

Inductive Call :=
| S3 (c : Command)
| Sql (s : Statement).

(** What happened to a call: [failure = None] when it went through,
    otherwise the message of the error it threw. *)
Record Event := { call : Call; failure : option jsstring }.

Definition Did (c : Call) : Event := {| call := c; failure := None |}.
Definition Failed (c : Call) (message : jsstring) : Event :=
  {| call := c; failure := Some message |}.

(** Value returned or error thrown. *)
Inductive outcome (A : Type) :=
| Returned (a : A)
| Thrown (message : jsstring).
Arguments Returned {A} a.
Arguments Thrown {A} message.

(** *** The object store

    An S3-compatible store: a put overwrites, a copy needs its source,
    deleting an absent key succeeds. *)
Definition s3_apply (c : Command) (b : gmap jsstring S3Object)
  : outcome (gmap jsstring S3Object) :=
  match c with
  | PutObjectCommand k o => Returned (<[k := o]> b)
  | CopyObjectCommand src dst =>
    match b !! src with
    | Some o => Returned (<[dst := o]> b)
    | None => Thrown (lit "The specified key does not exist.")
    end
  | DeleteObjectCommand k => Returned (delete k b)
  end.

(** *** The database

    [video_key] is the primary key of [video_metadata]: an insert or an
    update that would duplicate it throws.  [upload_history] is appended
    to, with the next row id and the database's current time. *)
Definition unique_failed : jsstring :=
  lit "UNIQUE constraint failed: video_metadata.video_key".

Definition sql_apply (now : Timestamp) (s : Statement) (w : World)
  : outcome World :=
  match s with
  | InsertVideoMetadata k uid uname =>
    match video_metadata w !! k with
    | Some _ => Thrown unique_failed
    | None =>
      Returned {| bucket := bucket w;
                  video_metadata :=
                    <[k := {| uploader_id := uid; uploader_name := uname |}]>
                      (video_metadata w);
                  upload_history := upload_history w |}
    end
  | DeleteVideoMetadata k =>
    Returned {| bucket := bucket w;
                video_metadata := delete k (video_metadata w);
                upload_history := upload_history w |}
  | UpdateVideoKey new old =>
    match video_metadata w !! old with
    | None => Returned w
    | Some row =>
      if bool_decide (new = old) then Returned w
      else match video_metadata w !! new with
           | Some _ => Thrown unique_failed
           | None =>
             Returned {| bucket := bucket w;
                         video_metadata :=
                           <[new := row]> (delete old (video_metadata w));
                         upload_history := upload_history w |}
           end
    end
  | InsertUploadHistory sz =>
    Returned {| bucket := bucket w;
                video_metadata := video_metadata w;
                upload_history :=
                  upload_history w ++
                  [{| id := Z.of_nat (length (upload_history w)) + 1;
                      size := sz; timestamp := now |}] |}
  end.

(** [SELECT SUM(size) as total FROM upload_history WHERE
    strftime('%Y-%m', timestamp) = ?]: [None] is SQL's NULL, the sum over
    no row. *)
Definition select_sum_size (m : month_key) (rows : list HistoryRow)
  : option Z :=
  match filter (fun r => month_of (timestamp r) = m) rows with
  | [] => None
  | matching => Some (foldr Z.add 0 (size <$> matching))
  end.

(** [usage?.total || 0]: NULL and zero both give zero. *)
Definition or_zero (total : option Z) : Z :=
  match total with
  | Some t => if t =? 0 then 0 else t
  | None => 0
  end.

(** ** Handlers as computations

    A handler body runs on the stores, returns or throws, and leaves the
    list of the calls it issued, in order.  What lies outside the handler
    (network, credentials, disk, foreign keys) is an input: [faults] tells
    which calls fail for such a reason, and a failed call changes nothing. *)

Record run (A : Type) := Run {
  result : outcome A;
  final : World;
  trace : list Event
}.
Arguments Run {A} result final trace.
Arguments result {A} r.
Arguments final {A} r.
Arguments trace {A} r.

Definition M (A : Type) : Type := World -> run A.

Definition ret {A} (a : A) : M A := fun w => Run (Returned a) w [].

Definition throw {A} (message : jsstring) : M A :=
  fun w => Run (Thrown message) w [].

Definition bind {A B} (m : M A) (k : A -> M B) : M B :=
  fun w =>
    match m w with
    | Run (Returned a) w1 t1 =>
      match k a w1 with
      | Run o w2 t2 => Run o w2 (t1 ++ t2)
      end
    | Run (Thrown e) w1 t1 => Run (Thrown e) w1 t1
    end.

(** [try { body } catch (error) { handler }] *)
Definition try_catch {A} (body : M A) (handler : jsstring -> M A) : M A :=
  fun w =>
    match body w with
    | Run (Returned a) w1 t1 => Run (Returned a) w1 t1
    | Run (Thrown e) w1 t1 =>
      match handler e w1 with
      | Run o w2 t2 => Run o w2 (t1 ++ t2)
      end
    end.

Declare Scope handler_scope.
Delimit Scope handler_scope with handler.
Notation "x <- m ;; k" := (bind m (fun x => k))
  (at level 100, m at next level, right associativity) : handler_scope.
Notation "m ;; k" := (bind m (fun _ => k))
  (at level 100, right associativity) : handler_scope.

Record Clock := {
  new_Date : Timestamp;            (* [new Date()] of the quota check *)
  Date_now : Z;                    (* [Date.now()] of the key *)
  CURRENT_TIMESTAMP : Timestamp    (* the database's, at the insert *)
}.

Record Context := {
  faults : Call -> option jsstring;
  clock : Clock
}.

(** The outcome of a call: the fault if there is one, otherwise what the
    store does. *)
Definition s3_outcome (ctx : Context) (c : Command)
    (b : gmap jsstring S3Object) : outcome (gmap jsstring S3Object) :=
  match faults ctx (S3 c) with
  | Some e => Thrown e
  | None => s3_apply c b
  end.

Definition sql_outcome (ctx : Context) (s : Statement) (w : World)
  : outcome World :=
  match faults ctx (Sql s) with
  | Some e => Thrown e
  | None => sql_apply (CURRENT_TIMESTAMP (clock ctx)) s w
  end.

Definition with_bucket (b : gmap jsstring S3Object) (w : World) : World :=
  {| bucket := b; video_metadata := video_metadata w;
     upload_history := upload_history w |}.

(** [await r2Client.send(command)] *)
Definition send (ctx : Context) (c : Command) : M unit :=
  fun w =>
    match s3_outcome ctx c (bucket w) with
    | Returned b => Run (Returned tt) (with_bucket b w) [Did (S3 c)]
    | Thrown e => Run (Thrown e) w [Failed (S3 c) e]
    end.

(** [db.prepare(statement).run(...)] *)
Definition db_run (ctx : Context) (s : Statement) : M unit :=
  fun w =>
    match sql_outcome ctx s w with
    | Returned w' => Run (Returned tt) w' [Did (Sql s)]
    | Thrown e => Run (Thrown e) w [Failed (Sql s) e]
    end.

(** [db.prepare("SELECT SUM(size) ...").get(currentMonth)] *)
Definition db_get_total (m : month_key) : M (option Z) :=
  fun w => Run (Returned (select_sum_size m (upload_history w))) w [].

(** ** Configuration, requests and responses *)

(** The result of [getR2Config()], [None] for [null]. *)
Record R2Config := {
  endpoint : jsstring;
  cfg_bucketName : jsstring;
  cfg_publicUrl : jsstring
}.

(** [const bucketName = r2Config?.bucketName || "";] *)
Definition bucketName (r2Config : option R2Config) : jsstring :=
  match r2Config with
  | Some c => cfg_bucketName c
  | None => []
  end.

(** [const publicUrl = r2Config?.publicUrl || "";] *)
Definition publicUrl (r2Config : option R2Config) : jsstring :=
  match r2Config with
  | Some c => cfg_publicUrl c
  | None => []
  end.

(** The guard [!r2Config || !bucketName] of the three handlers. *)
Definition not_configured (r2Config : option R2Config) : bool :=
  negb (bool_decide (is_Some r2Config)) || negb (truthy (bucketName r2Config)).

(** A value of a parsed JSON body.  A number is falsy only when it is
    zero, so the integral ones stand for all; [JObject] stands for objects
    and arrays. *)
Inductive JsonValue :=
| JUndefined
| JNull
| JBool (b : bool)
| JNumber (n : Z)
| JString (s : jsstring)
| JObject.

Definition json_truthy (v : JsonValue) : bool :=
  match v with
  | JUndefined | JNull => false
  | JBool b => b
  | JNumber n => negb (n =? 0)
  | JString s => truthy s
  | JObject => true
  end.

(** [newName.replace(/[^a-zA-Z0-9.-]/g, "_")] on a truthy value: only a
    string has the method. *)
Definition call_replace (newName : JsonValue) : M jsstring :=
  match newName with
  | JString s => ret (sanitize s)
  | _ => throw (lit "newName.replace is not a function")
  end.

Module Multer.
(** [req.file] as multer's memory storage fills it. *)
Record File := {
  originalname : jsstring;
  mimetype : jsstring;
  buffer : list N;
  size : Z
}.
End Multer.

Record UploadRequest := {
  file : option Multer.File;
  uploaderId : option jsstring;
  uploaderName : option jsstring
}.

Record RenameRequest := {
  params0 : jsstring;       (* [req.params[0]] *)
  newName : JsonValue       (* [req.body.newName] *)
}.

Inductive ResponseBody :=
| ErrorBody (error : jsstring)            (* [{ error }] *)
| UploadBody (key url : jsstring)         (* [{ success: true, key, url }] *)
| SuccessBody                             (* [{ success: true }] *)
| RenameBody (key : jsstring).            (* [{ success: true, key }] *)

Record Response := { status : Z; json : ResponseBody }.

(** [res.status(code).json({ error: message })] *)
Definition error_response (code : Z) (message : jsstring) : Response :=
  {| status := code; json := ErrorBody message |}.

(** [res.json(body)] *)
Definition ok_response (body : ResponseBody) : Response :=
  {| status := 200; json := body |}.

Definition msg_not_configured : jsstring :=
  lit "R2 is not configured. Please check your environment variables.".
Definition msg_no_file : jsstring := lit "No file uploaded".
Definition msg_quota : jsstring :=
  lit "Monthly upload quota exceeded (10GB limit). Please try again next month.".
Definition msg_invalid_key : jsstring := lit "Invalid key".
Definition msg_invalid_request : jsstring := lit "Invalid request".

(** ** [app.post("/api/upload", ...)] *)

Definition limit : Z := 10 * 1024 * 1024 * 1024.

Definition upload_key (now : Z) (originalname : jsstring) : jsstring :=
  let originalName := sanitize originalname in
  let fileName := of_number now ++ lit "-" ++ originalName in
  lit "videos/" ++ fileName.

(** [if (uploaderId && uploaderName) { db.prepare("INSERT INTO
    video_metadata ...").run(key, uploaderId, uploaderName); }] *)
Definition save_metadata (ctx : Context) (req : UploadRequest)
    (key : jsstring) : M unit :=
  match uploaderId req, uploaderName req with
  | Some uid, Some uname =>
    if truthy uid && truthy uname then
      db_run ctx (InsertVideoMetadata key uid uname)
    else ret tt
  | _, _ => ret tt
  end.

Definition upload_url (r2Config : option R2Config) (key : jsstring)
  : jsstring :=
  if truthy (publicUrl r2Config) then publicUrl r2Config ++ lit "/" ++ key
  else [].

Definition uploadVideo (r2Config : option R2Config) (ctx : Context)
    (req : UploadRequest) : M Response :=
  try_catch
    (if not_configured r2Config then
       ret (error_response 500 msg_not_configured)
     else
       match file req with
       | None => ret (error_response 400 msg_no_file)
       | Some file =>
         let currentMonth := month_of (new_Date (clock ctx)) in
         usage <- db_get_total currentMonth ;;
         let totalUsage := or_zero usage in
         if totalUsage + Multer.size file >? limit then
           ret (error_response 400 msg_quota)
         else
           let key := upload_key (Date_now (clock ctx))
                                 (Multer.originalname file) in
           send ctx (PutObjectCommand key
                       {| Body := Multer.buffer file;
                          ContentType := Multer.mimetype file |}) ;;
           save_metadata ctx req key ;;
           db_run ctx (InsertUploadHistory (Multer.size file)) ;;
           ret (ok_response (UploadBody key (upload_url r2Config key)))
       end)%handler
    (fun message => ret (error_response 500 message)).

(** ** [app.delete("/api/videos/*", ...)] *)

Definition deleteVideo (r2Config : option R2Config) (ctx : Context)
    (key : jsstring) : M Response :=
  try_catch
    (if not_configured r2Config then
       ret (error_response 500 msg_not_configured)
     else if negb (truthy key) || negb (startsWith key (lit "videos/")) then
       ret (error_response 400 msg_invalid_key)
     else
       send ctx (DeleteObjectCommand key) ;;
       db_run ctx (DeleteVideoMetadata key) ;;
       ret (ok_response SuccessBody))%handler
    (fun message => ret (error_response 500 message)).

(** ** [app.patch("/api/videos/*", ...)] *)

Definition renameVideo (r2Config : option R2Config) (ctx : Context)
    (req : RenameRequest) : M Response :=
  try_catch
    (if not_configured r2Config then
       ret (error_response 500 msg_not_configured)
     else
       let oldKey := params0 req in
       if negb (truthy oldKey) || negb (startsWith oldKey (lit "videos/"))
          || negb (json_truthy (newName req)) then
         ret (error_response 400 msg_invalid_request)
       else
         let extension := Path.extname oldKey in
         sanitizedNewName <- call_replace (newName req) ;;
         let newKey :=
           lit "videos/" ++ sanitizedNewName ++
           (if endsWith sanitizedNewName extension then [] else extension) in
         if bool_decide (oldKey = newKey) then
           ret (ok_response (RenameBody oldKey))
         else
           (* 1. Copy to new key *)
           send ctx (CopyObjectCommand oldKey newKey) ;;
           (* 2. Delete old key *)
           send ctx (DeleteObjectCommand oldKey) ;;
           (* 3. Update metadata *)
           db_run ctx (UpdateVideoKey newKey oldKey) ;;
           ret (ok_response (RenameBody newKey)))%handler
    (fun message => ret (error_response 500 message)).

(** ** Sample data *)

Definition no_faults : Call -> option jsstring := fun _ => None.

Definition sample_config : option R2Config :=
  Some {| endpoint := lit "https://account.r2.cloudflarestorage.com";
          cfg_bucketName := lit "media";
          cfg_publicUrl := lit "https://cdn.example.org" |}.

Definition march : Timestamp :=
  {| ts_year := 2025; ts_month := 3; ts_rest := 1000 |}.

Definition sample_clock : Clock :=
  {| new_Date := march; Date_now := 1690000000; CURRENT_TIMESTAMP := march |}.

Definition quiet : Context := {| faults := no_faults; clock := sample_clock |}.

Definition clip : S3Object :=
  {| Body := [0; 1; 2]%N; ContentType := lit "video/mp4" |}.

Definition ann : Uploader :=
  {| uploader_id := lit "u1"; uploader_name := lit "Ann" |}.

Definition sample_world : World :=
  {| bucket := {[ lit "videos/1690000000-clip.mp4" := clip ]};
     video_metadata := {[ lit "videos/1690000000-clip.mp4" := ann ]};
     upload_history := [ {| id := 1; size := 3; timestamp := march |} ] |}.

(** The three calls of a rename, in the order of the source. *)
Definition rename_calls (oldKey newKey : jsstring) : list Call :=
  [ S3 (CopyObjectCommand oldKey newKey);
    S3 (DeleteObjectCommand oldKey);
    Sql (UpdateVideoKey newKey oldKey) ].

(** A context in which every delete sent to the object store fails. *)
Definition delete_fails (message : jsstring) : Context :=
  {| faults := fun c =>
       match c with
       | S3 (DeleteObjectCommand _) => Some message
       | _ => None
       end;
     clock := sample_clock |}.

Definition rename_clip : RenameRequest :=
  {| params0 := lit "videos/1690000000-clip.mp4";
     newName := JString (lit "My Clip!!") |}.


(** An upload of [clip.mp4] by Ann. *)
Definition clip_file : Multer.File :=
  {| Multer.originalname := lit "clip.mp4";
     Multer.mimetype := lit "video/mp4";
     Multer.buffer := [0; 1; 2]%N;
     Multer.size := 3 |}.

Definition upload_clip : UploadRequest :=
  {| file := Some clip_file;
     uploaderId := Some (lit "u1");
     uploaderName := Some (lit "Ann") |}.

(** The same instant of the month, a later millisecond for the key. *)
Definition later : Context :=
  {| faults := no_faults;
     clock := {| new_Date := march; Date_now := 1700000000;
                 CURRENT_TIMESTAMP := march |} |}.

(** A context in which the insert into [upload_history] fails. *)
Definition history_fails (message : jsstring) : Context :=
  {| faults := fun c =>
       match c with
       | Sql (InsertUploadHistory _) => Some message
       | _ => None
       end;
     clock := clock later |}.

(** A context in which every put sent to the object store fails. *)
Definition put_fails (message : jsstring) : Context :=
  {| faults := fun c =>
       match c with
       | S3 (PutObjectCommand _ _) => Some message
       | _ => None
       end;
     clock := clock later |}.

(** A ledger that has reached the limit in March. *)
Definition full_world : World :=
  {| bucket := ∅; video_metadata := ∅;
     upload_history := [ {| id := 1; size := limit; timestamp := march |} ] |}.

(** A context whose database clock has passed into April while the
    handler's [new Date()] of the quota check still read March. *)
Definition month_turns : Context :=
  {| faults := no_faults;
     clock := {| new_Date := march; Date_now := 1700000000;
                 CURRENT_TIMESTAMP :=
                   {| ts_year := 2025; ts_month := 4; ts_rest := 0 |} |} |}.

(** ** Notions of the specification *)

(** A key of the [videos/] namespace: the prefix, then no further slash. *)
Definition confined (key : jsstring) : Prop :=
  exists rest, key = lit "videos/" ++ rest /\ slash ∉ rest.

(** ** The paths through the handlers

    Each handler ends in one of a few ways; a path fixes the response,
    the stores left behind and the calls made. *)

Definition not_a_function : jsstring :=
  lit "newName.replace is not a function".

(** The guard [!oldKey || !oldKey.startsWith("videos/") || !newName]. *)
Definition rename_rejected (req : RenameRequest) : bool :=
  negb (truthy (params0 req))
  || negb (startsWith (params0 req) (lit "videos/"))
  || negb (json_truthy (newName req)).

Section RenamePaths.
Variable r2Config : option R2Config.
Variable ctx : Context.
Variable req : RenameRequest.
Variable w : World.

Let oldKey := params0 req.
Let copy newKey := CopyObjectCommand oldKey newKey.
Let del := DeleteObjectCommand oldKey.
Let update newKey := UpdateVideoKey newKey oldKey.

Inductive rename_path : run Response -> Prop :=
| rename_not_configured :
    not_configured r2Config = true ->
    rename_path (Run (Returned (error_response 500 msg_not_configured)) w [])
| rename_invalid :
    not_configured r2Config = false ->
    rename_rejected req = true ->
    rename_path (Run (Returned (error_response 400 msg_invalid_request)) w [])
| rename_not_a_string :
    not_configured r2Config = false ->
    rename_rejected req = false ->
    (forall name, newName req <> JString name) ->
    rename_path (Run (Returned (error_response 500 not_a_function)) w [])
| rename_same_key name :
    not_configured r2Config = false ->
    rename_rejected req = false ->
    newName req = JString name ->
    renameKey oldKey name = oldKey ->
    rename_path (Run (Returned (ok_response (RenameBody oldKey))) w [])
| rename_copy_failed name message :
    not_configured r2Config = false ->
    rename_rejected req = false ->
    newName req = JString name ->
    let newKey := renameKey oldKey name in
    newKey <> oldKey ->
    s3_outcome ctx (copy newKey) (bucket w) = Thrown message ->
    rename_path (Run (Returned (error_response 500 message)) w
                     [Failed (S3 (copy newKey)) message])
| rename_delete_failed name b1 message :
    not_configured r2Config = false ->
    rename_rejected req = false ->
    newName req = JString name ->
    let newKey := renameKey oldKey name in
    newKey <> oldKey ->
    s3_outcome ctx (copy newKey) (bucket w) = Returned b1 ->
    s3_outcome ctx del b1 = Thrown message ->
    rename_path (Run (Returned (error_response 500 message))
                     (with_bucket b1 w)
                     [Did (S3 (copy newKey)); Failed (S3 del) message])
| rename_update_failed name b1 b2 message :
    not_configured r2Config = false ->
    rename_rejected req = false ->
    newName req = JString name ->
    let newKey := renameKey oldKey name in
    newKey <> oldKey ->
    s3_outcome ctx (copy newKey) (bucket w) = Returned b1 ->
    s3_outcome ctx del b1 = Returned b2 ->
    sql_outcome ctx (update newKey) (with_bucket b2 w) = Thrown message ->
    rename_path (Run (Returned (error_response 500 message))
                     (with_bucket b2 w)
                     [Did (S3 (copy newKey)); Did (S3 del);
                      Failed (Sql (update newKey)) message])
| rename_done name b1 b2 w3 :
    not_configured r2Config = false ->
    rename_rejected req = false ->
    newName req = JString name ->
    let newKey := renameKey oldKey name in
    newKey <> oldKey ->
    s3_outcome ctx (copy newKey) (bucket w) = Returned b1 ->
    s3_outcome ctx del b1 = Returned b2 ->
    sql_outcome ctx (update newKey) (with_bucket b2 w) = Returned w3 ->
    rename_path (Run (Returned (ok_response (RenameBody newKey))) w3
                     [Did (S3 (copy newKey)); Did (S3 del);
                      Did (Sql (update newKey))]).
End RenamePaths.

(** The guard [!key || !key.startsWith("videos/")]. *)
Definition delete_rejected (key : jsstring) : bool :=
  negb (truthy key) || negb (startsWith key (lit "videos/")).

Section DeletePaths.
Variable r2Config : option R2Config.
Variable ctx : Context.
Variable key : jsstring.
Variable w : World.

Let del := DeleteObjectCommand key.
Let clean := DeleteVideoMetadata key.

Inductive delete_path : run Response -> Prop :=
| delete_not_configured :
    not_configured r2Config = true ->
    delete_path (Run (Returned (error_response 500 msg_not_configured)) w [])
| delete_invalid :
    not_configured r2Config = false ->
    delete_rejected key = true ->
    delete_path (Run (Returned (error_response 400 msg_invalid_key)) w [])
| delete_object_failed message :
    not_configured r2Config = false ->
    delete_rejected key = false ->
    s3_outcome ctx del (bucket w) = Thrown message ->
    delete_path (Run (Returned (error_response 500 message)) w
                     [Failed (S3 del) message])
| delete_cleanup_failed b1 message :
    not_configured r2Config = false ->
    delete_rejected key = false ->
    s3_outcome ctx del (bucket w) = Returned b1 ->
    sql_outcome ctx clean (with_bucket b1 w) = Thrown message ->
    delete_path (Run (Returned (error_response 500 message))
                     (with_bucket b1 w)
                     [Did (S3 del); Failed (Sql clean) message])
| delete_done b1 w2 :
    not_configured r2Config = false ->
    delete_rejected key = false ->
    s3_outcome ctx del (bucket w) = Returned b1 ->
    sql_outcome ctx clean (with_bucket b1 w) = Returned w2 ->
    delete_path (Run (Returned (ok_response SuccessBody)) w2
                     [Did (S3 del); Did (Sql clean)]).
End DeletePaths.

(** The usage the upload handler compares with the limit. *)
Definition usage (m : month_key) (rows : list HistoryRow) : Z :=
  or_zero (select_sum_size m rows).

(** The ledger sum of a month, as the specification words it: the sizes
    of the entries stamped in that month, added up. *)
Definition ledger_sum (m : month_key) (rows : list HistoryRow) : Z :=
  foldr Z.add 0 (size <$> filter (fun r => month_of (timestamp r) = m) rows).

(** The set [A-Za-z0-9._-], spelled out. *)
Definition allow_list : jsstring :=
  lit "ABCDEFGHIJKLMNOPQRSTUVWXYZabcdefghijklmnopqrstuvwxyz0123456789._-".

Section UploadPaths.
Variable r2Config : option R2Config.
Variable ctx : Context.
Variable req : UploadRequest.
Variable w : World.

Let totalUsage := usage (month_of (new_Date (clock ctx))) (upload_history w).

Inductive upload_path : run Response -> Prop :=
| upload_not_configured :
    not_configured r2Config = true ->
    upload_path (Run (Returned (error_response 500 msg_not_configured)) w [])
| upload_no_file :
    not_configured r2Config = false ->
    file req = None ->
    upload_path (Run (Returned (error_response 400 msg_no_file)) w [])
| upload_over_quota f :
    not_configured r2Config = false ->
    file req = Some f ->
    totalUsage + Multer.size f > limit ->
    upload_path (Run (Returned (error_response 400 msg_quota)) w [])
| upload_put_failed f message :
    not_configured r2Config = false ->
    file req = Some f ->
    totalUsage + Multer.size f <= limit ->
    let key := upload_key (Date_now (clock ctx)) (Multer.originalname f) in
    let put := PutObjectCommand key
                 {| Body := Multer.buffer f;
                    ContentType := Multer.mimetype f |} in
    s3_outcome ctx put (bucket w) = Thrown message ->
    upload_path (Run (Returned (error_response 500 message)) w
                     [Failed (S3 put) message])
| upload_metadata_failed f b1 w2 t2 message :
    not_configured r2Config = false ->
    file req = Some f ->
    totalUsage + Multer.size f <= limit ->
    let key := upload_key (Date_now (clock ctx)) (Multer.originalname f) in
    let put := PutObjectCommand key
                 {| Body := Multer.buffer f;
                    ContentType := Multer.mimetype f |} in
    s3_outcome ctx put (bucket w) = Returned b1 ->
    save_metadata ctx req key (with_bucket b1 w)
      = Run (Thrown message) w2 t2 ->
    upload_path (Run (Returned (error_response 500 message)) w2
                     (Did (S3 put) :: t2))
| upload_history_failed f b1 w2 t2 message :
    not_configured r2Config = false ->
    file req = Some f ->
    totalUsage + Multer.size f <= limit ->
    let key := upload_key (Date_now (clock ctx)) (Multer.originalname f) in
    let put := PutObjectCommand key
                 {| Body := Multer.buffer f;
                    ContentType := Multer.mimetype f |} in
    let append := InsertUploadHistory (Multer.size f) in
    s3_outcome ctx put (bucket w) = Returned b1 ->
    save_metadata ctx req key (with_bucket b1 w)
      = Run (Returned tt) w2 t2 ->
    sql_outcome ctx append w2 = Thrown message ->
    upload_path (Run (Returned (error_response 500 message)) w2
                     (Did (S3 put) :: t2 ++ [Failed (Sql append) message]))
| upload_done f b1 w2 t2 w3 :
    not_configured r2Config = false ->
    file req = Some f ->
    totalUsage + Multer.size f <= limit ->
    let key := upload_key (Date_now (clock ctx)) (Multer.originalname f) in
    let put := PutObjectCommand key
                 {| Body := Multer.buffer f;
                    ContentType := Multer.mimetype f |} in
    let append := InsertUploadHistory (Multer.size f) in
    s3_outcome ctx put (bucket w) = Returned b1 ->
    save_metadata ctx req key (with_bucket b1 w)
      = Run (Returned tt) w2 t2 ->
    sql_outcome ctx append w2 = Returned w3 ->
    upload_path (Run (Returned
                        (ok_response
                           (UploadBody key (upload_url r2Config key))))
                     w3
                     (Did (S3 put) :: t2 ++ [Did (Sql append)])).
End UploadPaths.

(** The optional metadata insert of the upload handler. *)
Inductive metadata_step (ctx : Context) (req : UploadRequest)
    (key : jsstring) (w : World) : run unit -> Prop :=
| metadata_skipped :
    (forall uid uname,
        uploaderId req = Some uid -> uploaderName req = Some uname ->
        truthy uid && truthy uname = false) ->
    metadata_step ctx req key w (Run (Returned tt) w [])
| metadata_failed uid uname message :
    uploaderId req = Some uid -> uploaderName req = Some uname ->
    truthy uid && truthy uname = true ->
    sql_outcome ctx (InsertVideoMetadata key uid uname) w = Thrown message ->
    metadata_step ctx req key w
      (Run (Thrown message) w
           [Failed (Sql (InsertVideoMetadata key uid uname)) message])
| metadata_saved uid uname w2 :
    uploaderId req = Some uid -> uploaderName req = Some uname ->
    truthy uid && truthy uname = true ->
    sql_outcome ctx (InsertVideoMetadata key uid uname) w = Returned w2 ->
    metadata_step ctx req key w
      (Run (Returned tt) w2
           [Did (Sql (InsertVideoMetadata key uid uname))]).

(** ** Requests in sequence

    The three handlers that write, as the requests a server takes one
    after the other; each request comes with its own faults and clock. *)

Inductive Request :=
| PostUpload (ctx : Context) (req : UploadRequest)
| DeleteVideos (ctx : Context) (key : jsstring)
| PatchVideos (ctx : Context) (req : RenameRequest).

Definition serve (r2Config : option R2Config) (rq : Request) : M Response :=
  match rq with
  | PostUpload ctx req => uploadVideo r2Config ctx req
  | DeleteVideos ctx key => deleteVideo r2Config ctx key
  | PatchVideos ctx req => renameVideo r2Config ctx req
  end.

(** The stores after a list of requests, served first to last. *)
Definition serve_all (r2Config : option R2Config) (rqs : list Request)
    (w : World) : World :=
  foldl (fun w rq => final (serve r2Config rq w)) w rqs.

(** A key as the handlers form it: [videos/], then code units of the
    allow list only. *)
Definition stored_key (key : jsstring) : Prop :=
  exists rest, key = lit "videos/" ++ rest /\
               Forall (fun c => c ∈ allow_list) rest.

(** Every key of the bucket and of the metadata table is of that form. *)
Definition well_keyed (w : World) : Prop :=
  (forall k, is_Some (bucket w !! k) -> stored_key k) /\
  (forall k, is_Some (video_metadata w !! k) -> stored_key k).

(** No month of the ledger is over the limit. *)
Definition within_quota (w : World) : Prop :=
  forall m, ledger_sum m (upload_history w) <= limit.

(** The clock of a request whose ledger stamp falls in the month of its
    quota check. *)
Definition steady (rq : Request) : Prop :=
  match rq with
  | PostUpload ctx _ =>
    month_of (CURRENT_TIMESTAMP (clock ctx)) = month_of (new_Date (clock ctx))
  | _ => True
  end.

(** The empty stores of a fresh deployment. *)
Definition empty_world : World :=
  {| bucket := ∅; video_metadata := ∅; upload_history := [] |}.

(** An upload by nobody: no uploader fields in the form. *)
Definition upload_anonymous : UploadRequest :=
  {| file := Some clip_file; uploaderId := None; uploaderName := None |}.

(** Two videos, each with its row; the second is the target of a rename
    of the first to the display name [intro]. *)
Definition bob : Uploader :=
  {| uploader_id := lit "u2"; uploader_name := lit "Bob" |}.

Definition intro : S3Object :=
  {| Body := [7; 8]%N; ContentType := lit "video/mp4" |}.

Definition two_videos : World :=
  {| bucket := {[ lit "videos/1690000000-clip.mp4" := clip;
                  lit "videos/intro.mp4" := intro ]};
     video_metadata := {[ lit "videos/1690000000-clip.mp4" := ann;
                          lit "videos/intro.mp4" := bob ]};
     upload_history := [ {| id := 1; size := 3; timestamp := march |};
                         {| id := 2; size := 2; timestamp := march |} ] |}.

Definition rename_to_intro : RenameRequest :=
  {| params0 := lit "videos/1690000000-clip.mp4";
     newName := JString (lit "intro") |}.

(** ** Requests that name an uploader, and a day of requests *)

(** The uploader an upload request names: both form fields present and
    not empty. *)
Definition named_uploader (req : UploadRequest) : option Uploader :=
  match uploaderId req, uploaderName req with
  | Some uid, Some uname =>
    if truthy uid && truthy uname
    then Some {| uploader_id := uid; uploader_name := uname |}
    else None
  | _, _ => None
  end.

(** The decimal digits, of which the time stamp of an upload key is made. *)
Definition is_digit (c : code_unit) : bool := ((48 <=? c) && (c <=? 57))%N.

Definition is_upload (rq : Request) : bool :=
  match rq with PostUpload _ _ => true | _ => false end.

Definition busy_day : list Request :=
  [ PostUpload later upload_clip;
    PatchVideos quiet {| params0 := lit "videos/1700000000-clip.mp4";
                         newName := JString (lit "../../etc/passwd") |};
    PostUpload (history_fails (lit "disk I/O error")) upload_anonymous;
    DeleteVideos (delete_fails (lit "timeout"))
                 (lit "videos/1700000000-clip.mp4") ].

(** ** [app.get("/api/storage-usage", ...)] *)

Module StorageUsage.
(** The body [{ used, limit }]. *)
Record body := { used : Z; limit : Z }.
End StorageUsage.

Definition storageUsage (now : Timestamp) (w : World) : StorageUsage.body :=
  let currentMonth := month_of now in
  let usage := select_sum_size currentMonth (upload_history w) in
  {| StorageUsage.used := or_zero usage;
     StorageUsage.limit := 10 * 1024 * 1024 * 1024 |}.

(** ** [app.get("/api/storage-history", ...)] *)

Module StorageHistory.
(** A row [{ month, total }] of the answer. *)
Record row := { month : month_key; total : Z }.
End StorageHistory.

(** The order of the texts [YYYY-MM], on the pairs that stand for them:
    [month_ge a b] when [a] is [b] or later. *)
Definition month_ge (a b : month_key) : Prop :=
  b.1 < a.1 \/ (b.1 = a.1 /\ b.2 <= a.2).

#[global] Instance month_ge_dec : RelDecision month_ge.
Proof. intros a b. unfold month_ge. apply _. Defined.

(** [SELECT strftime('%Y-%m', timestamp) as month, SUM(size) as total
    FROM upload_history GROUP BY month ORDER BY month DESC LIMIT 12] *)
Definition storageHistory (w : World) : list StorageHistory.row :=
  let rows := upload_history w in
  let months := remove_dups ((fun r => month_of (timestamp r)) <$> rows) in
  let ordered := merge_sort month_ge months in
  (fun m =>
     {| StorageHistory.month := m;
        StorageHistory.total :=
          foldr Z.add 0
                (size <$> filter (fun r => month_of (timestamp r) = m) rows) |})
    <$> take 12 ordered.

(** [a] is later than [b]. *)
Definition month_gt (a b : month_key) : Prop := month_ge a b /\ a <> b.

Definition april : Timestamp :=
  {| ts_year := 2025; ts_month := 4; ts_rest := 0 |}.

Definition ledger_world : World :=
  {| bucket := ∅; video_metadata := ∅;
     upload_history := [ {| id := 1; size := 3; timestamp := march |};
                         {| id := 2; size := 10; timestamp := april |};
                         {| id := 3; size := 4; timestamp := march |} ] |}.

Definition history_months (w : World) : list month_key :=
  take 12 (merge_sort month_ge
             (remove_dups ((fun r => month_of (timestamp r))
                             <$> upload_history w))).

(** ** The loop of [path.extname] on the last component of a path

    Two auxiliary functions, in which the lemmas on [path.extname] are
    stated: the body of the loop at a code unit that is no slash, and its
    iteration over a run of such code units. *)

Definition dot : code_unit := 46%N.

Module ExtnameLoop.
Import Path.

(** The loop body at an index that holds the code unit [c], not a slash. *)
Definition advance (c : code_unit) (i : nat) (v : vars) : vars :=
  let code := Z.of_N c in
  let v1 :=
    if end_ v =? -1 then
      {| startDot := startDot v; startPart := startPart v;
         end_ := Z.of_nat i + 1; matchedSlash := false;
         preDotState := preDotState v |}
    else v in
  if code =? CHAR_DOT then
    if startDot v1 =? -1 then
      {| startDot := Z.of_nat i; startPart := startPart v1;
         end_ := end_ v1; matchedSlash := matchedSlash v1;
         preDotState := preDotState v1 |}
    else if negb (preDotState v1 =? 1) then
      {| startDot := startDot v1; startPart := startPart v1;
         end_ := end_ v1; matchedSlash := matchedSlash v1;
         preDotState := 1 |}
    else v1
  else if negb (startDot v1 =? -1) then
    {| startDot := startDot v1; startPart := startPart v1;
       end_ := end_ v1; matchedSlash := matchedSlash v1;
       preDotState := -1 |}
  else v1.

(** The loop over the code units [s] at the indices [i], [i + 1], ...,
    last to first. *)
Fixpoint advance_run (s : jsstring) (i : nat) (v : vars) : vars :=
  match s with
  | [] => v
  | c :: s' => advance c i (advance_run s' (S i) v)
  end.

End ExtnameLoop.

(** ** [app.get("/api/videos", ...)] *)

(** [s.split(sep)] for a separator of one code unit: the pieces between
    the separators, at least one. *)
Fixpoint split (sep : code_unit) (s : jsstring) : list jsstring :=
  match s with
  | [] => [[]]
  | c :: s' =>
    if (c =? sep)%N then [] :: split sep s'
    else match split sep s' with
         | piece :: pieces => (c :: piece) :: pieces
         | [] => [[c]]
         end
  end.

Module S3Listing.
(** An element of [data.Contents]; every field is optional in the SDK.
    [LastModified] is kept as the text [toISOString()] gives for it. *)
Record Item := {
  Key : option jsstring;
  Size : option Z;
  LastModified : option jsstring
}.
End S3Listing.

Module Video.
(** An element of the answer. *)
Record t := {
  key : jsstring;
  name : jsstring;
  size : Z;
  lastModified : jsstring;
  url : jsstring;
  uploader : jsstring
}.
End Video.

Inductive ListAnswer :=
| ListError (code : Z) (error : jsstring)     (* [res.status(code).json({ error })] *)
| ListJson (videos : list Video.t).            (* [res.json(videos)] *)

Definition video_extensions : list jsstring :=
  [lit ".mp4"; lit ".mov"; lit ".avi"; lit ".mkv"; lit ".webm"].

Definition msg_no_bucket : jsstring :=
  lit "R2 Bucket Name not configured. Please check your Secrets panel.".

Definition msg_list_failed (message : jsstring) : jsstring :=
  lit "Failed to connect to R2: " ++ message ++
  lit ". Please verify your R2_ENDPOINT, R2_ACCESS_KEY_ID, and R2_SECRET_ACCESS_KEY.".

Section Listing.
(** [String.prototype.toLowerCase], which follows the Unicode case
    mapping, is left open. *)
Variable toLowerCase : jsstring -> jsstring.

(** The filter: a truthy key whose lower-cased extension is listed. *)
Definition is_video (item : S3Listing.Item) : bool :=
  match S3Listing.Key item with
  | None => false
  | Some k =>
    if negb (truthy k) then false
    else
      let ext := toLowerCase (Path.extname k) in
      bool_decide (ext ∈ video_extensions)
  end.

(** The map; [item.Key!] is the key the filter has seen. *)
Definition to_video (r2Config : option R2Config)
    (video_metadata : gmap jsstring Uploader) (now_iso : jsstring)
    (item : S3Listing.Item) : Video.t :=
  let Key := default [] (S3Listing.Key item) in
  let url :=
    if truthy (publicUrl r2Config) then publicUrl r2Config ++ lit "/" ++ Key
    else [] in
  let metadata := video_metadata !! Key in
  {| Video.key := Key;
     Video.name :=
       match last (split slash Key) with
       | Some piece => if truthy piece then piece else Key
       | None => Key
       end;
     Video.size :=
       match S3Listing.Size item with
       | Some n => if n =? 0 then 0 else n
       | None => 0
       end;
     Video.lastModified :=
       match S3Listing.LastModified item with
       | Some iso => if truthy iso then iso else now_iso
       | None => now_iso
       end;
     Video.url := url;
     Video.uploader :=
       match metadata with
       | Some row =>
         if truthy (uploader_name row) then uploader_name row
         else lit "Unknown"
       | None => lit "Unknown"
       end |}.

(** The handler, given what [r2Client.send(new ListObjectsV2Command(...))]
    returned or threw; [None] is an absent [data.Contents]. *)
Definition listVideos (r2Config : option R2Config) (w : World)
    (now_iso : jsstring)
    (listed : outcome (option (list S3Listing.Item))) : ListAnswer :=
  if negb (truthy (bucketName r2Config)) then ListError 500 msg_no_bucket
  else
    match listed with
    | Thrown message => ListError 500 (msg_list_failed message)
    | Returned Contents =>
      ListJson
        (to_video r2Config (video_metadata w) now_iso
           <$> filter (fun item => is_video item = true) (default [] Contents))
    end.
End Listing.

(** Lower case for strings of ASCII letters, digits and punctuation, on
    which it is what [toLowerCase] does. *)
Definition lower_ascii (s : jsstring) : jsstring :=
  (fun c => if (65 <=? c) && (c <=? 90) then c + 32 else c)%N <$> s.

Definition listed_clip : S3Listing.Item :=
  {| S3Listing.Key := Some (lit "videos/1690000000-clip.mp4");
     S3Listing.Size := Some 3;
     S3Listing.LastModified := Some (lit "2025-03-01T10:00:00.000Z") |}.

Definition listed_notes : S3Listing.Item :=
  {| S3Listing.Key := Some (lit "notes/readme.txt");
     S3Listing.Size := Some 12; S3Listing.LastModified := None |}.

Definition listed_raw : S3Listing.Item :=
  {| S3Listing.Key := Some (lit "raw/B-ROLL.MOV");
     S3Listing.Size := None; S3Listing.LastModified := None |}.

Definition sample_listing : list S3Listing.Item :=
  [listed_notes; listed_clip; listed_raw].

Definition listed_upload : S3Listing.Item :=
  {| S3Listing.Key := Some (lit "videos/1700000000-clip.mp4");
     S3Listing.Size := Some 3; S3Listing.LastModified := None |}.

Definition listed_renamed : S3Listing.Item :=
  {| S3Listing.Key := Some (lit "videos/My_Clip__.mp4");
     S3Listing.Size := Some 3; S3Listing.LastModified := None |}.

(** ** The client's file names ([App.tsx])

    [handleFileSelect] proposes the file's name without its extension;
    [handleUpload] puts the extension back on whatever name the user
    typed, and gives the result as the file name of the form field. *)

Module Client.

(** [s.lastIndexOf(c)] for a pattern of one code unit: the index of its
    last occurrence, [-1] when there is none. *)
Fixpoint lastIndexOf (s : jsstring) (c : code_unit) : Z :=
  match s with
  | [] => -1
  | d :: rest =>
    let i := lastIndexOf rest c in
    if i =? -1 then (if (d =? c)%N then 0 else -1) else i + 1
  end.

(** [s.substring(start)]: the start is clamped to the string. *)
Definition substring (s : jsstring) (start : Z) : jsstring :=
  drop (Z.to_nat (Z.min (Z.max start 0) (Z.of_nat (length s)))) s.

(** The class [[^/.]] of the regular expression [/\.[^/.]+$/]. *)
Definition in_tail_class (c : code_unit) : bool :=
  negb (c =? slash)%N && negb (c =? dot)%N.

(** Whether [/\.[^/.]+$/] matches at the start of [s]: a dot, then one or
    more code units of the class, up to the end of the string. *)
Definition matches_extension (s : jsstring) : bool :=
  match s with
  | c :: (_ :: _) as rest => (c =? dot)%N && forallb in_tail_class rest
  | _ => false
  end.

(** [file.name.replace(/\.[^/.]+$/, "")]: the leftmost match, which runs
    to the end of the string, is removed. *)
Fixpoint nameWithoutExt (fileName : jsstring) : jsstring :=
  match fileName with
  | [] => []
  | c :: rest =>
    if matches_extension (c :: rest) then [] else c :: nameWithoutExt rest
  end.

(** [file.name.substring(file.name.lastIndexOf('.'))] *)
Definition extension (fileName : jsstring) : jsstring :=
  substring fileName (lastIndexOf fileName dot).

(** [name.endsWith(extension) ? name : name + extension] *)
Definition finalFileName (fileName name : jsstring) : jsstring :=
  let extension := extension fileName in
  if endsWith name extension then name else name ++ extension.

End Client.

(** ** Pages of the video grid ([App.tsx]) *)

Module Pages.

Definition itemsPerPage : Z := 6.

(** [Math.ceil(a / b)] for a length [a] and a positive integer [b]: the
    quotient of the two integers, rounded up. *)
Definition ceil_div (a b : Z) : Z := - ((- a) / b).

(** [array.slice(from, to)] for integer arguments: negative indices count
    from the end, both ends are clamped to the array. *)
Definition slice {A} (l : list A) (from to : Z) : list A :=
  let len := Z.of_nat (length l) in
  let k := if from <? 0 then Z.max (len + from) 0 else Z.min from len in
  let final := if to <? 0 then Z.max (len + to) 0 else Z.min to len in
  take (Z.to_nat (final - k)) (drop (Z.to_nat k) l).

(** [Math.ceil(filteredVideos.length / itemsPerPage)] *)
Definition totalPages {A} (filteredVideos : list A) : Z :=
  ceil_div (Z.of_nat (length filteredVideos)) itemsPerPage.

(** [filteredVideos.slice((currentPage - 1) * itemsPerPage,
    currentPage * itemsPerPage)] *)
Definition paginatedVideos {A} (filteredVideos : list A) (currentPage : Z)
    : list A :=
  slice filteredVideos ((currentPage - 1) * itemsPerPage)
        (currentPage * itemsPerPage).

End Pages.

(** * Properties *)

(** ** The functions on sample inputs *)

Example extname_clip :
  Path.extname (lit "videos/1690000000-clip.mp4") = lit ".mp4".
Proof. vm_compute. reflexivity. Qed.

Example extname_cases :
  Path.extname (lit "index.coffee.md") = lit ".md" /\
  Path.extname (lit "index.") = lit "." /\
  Path.extname (lit "index") = [] /\
  Path.extname (lit ".index") = [] /\
  Path.extname (lit ".index.md") = lit ".md" /\
  Path.extname (lit "videos/a.mp4/") = lit ".mp4" /\
  Path.extname (lit "videos/..") = [] /\
  Path.extname (lit "a.b/c") = [].
Proof. vm_compute. repeat split; reflexivity. Qed.

Example renameKey_clip :
  renameKey (lit "videos/1690000000-clip.mp4") (lit "My Clip!!")
  = lit "videos/My_Clip__.mp4".
Proof. vm_compute. reflexivity. Qed.

Example rename_clip_run :
  renameVideo sample_config quiet rename_clip sample_world
  = Run (Returned (ok_response (RenameBody (lit "videos/My_Clip__.mp4"))))
        {| bucket := {[ lit "videos/My_Clip__.mp4" := clip ]};
           video_metadata := {[ lit "videos/My_Clip__.mp4" := ann ]};
           upload_history := upload_history sample_world |}
        (Did <$> rename_calls (lit "videos/1690000000-clip.mp4")
                              (lit "videos/My_Clip__.mp4")).
Proof. vm_compute. reflexivity. Qed.

(** ** Strings *)

Lemma endsWith_suffix (s e : jsstring) :
  endsWith s e = true <-> e `suffix_of` s.
Proof.
  unfold endsWith. destruct (Nat.ltb_spec (length s) (length e)) as [Hlt|Hle].
  - split; [discriminate|]. intros Hs. apply suffix_length in Hs. lia.
  - rewrite bool_decide_eq_true. split.
    + intros Hd. exists (take (length s - length e) s).
      rewrite <- Hd at 2. symmetry. apply take_drop.
    + intros [k ->]. rewrite length_app.
      replace (length k + length e - length e)%nat with (length k) by lia.
      apply drop_app_length.
Qed.

Lemma startsWith_prefix (s p : jsstring) :
  startsWith s p = true <-> p `prefix_of` s.
Proof.
  unfold startsWith. rewrite bool_decide_eq_true. split.
  - intros Ht. exists (drop (length p) s).
    transitivity (take (length p) s ++ drop (length p) s).
    + symmetry. apply take_drop.
    + by rewrite Ht.
  - intros [k ->]. by rewrite take_app_length.
Qed.

(** ** Sanitization *)

Lemma in_class_allowed c : in_class c = true -> allowed c = true.
Proof. unfold allowed. intros ->. reflexivity. Qed.

Lemma replace_unit_allowed c : allowed (replace_unit c) = true.
Proof.
  unfold replace_unit. destruct (in_class c) eqn:E.
  - by apply in_class_allowed.
  - reflexivity.
Qed.

Lemma replace_unit_idem c : replace_unit (replace_unit c) = replace_unit c.
Proof.
  unfold replace_unit. destruct (in_class c) eqn:E.
  - by rewrite E.
  - reflexivity.
Qed.

Lemma replace_unit_not_slash c : replace_unit c <> slash.
Proof.
  unfold replace_unit. destruct (in_class c) eqn:E; [|discriminate].
  intros ->. discriminate E.
Qed.

Lemma sanitize_no_slash name : slash ∉ sanitize name.
Proof.
  unfold sanitize. intros Hin. apply list_elem_of_fmap in Hin.
  destruct Hin as (c & Hc & _). symmetry in Hc.
  by apply replace_unit_not_slash in Hc.
Qed.

(** ** [path.extname] never returns a separator *)

Module PathFacts.
Import Path.

Lemma good_settled path n v : good path n v -> settled path v.
Proof.
  intros [He Hd _] Hs Hn. destruct (He Hn) as [Hr Hj].
  destruct (Hd Hs) as [_ Hb]. repeat split; try lia.
  intros j Hj'. apply Hj. lia.
Qed.

Lemma charCodeAt_slash path i :
  charCodeAt path i <> CHAR_FORWARD_SLASH -> path !! i <> Some slash.
Proof.
  unfold charCodeAt. destruct (path !! i) as [c|]; [|discriminate].
  intros Hc [= ->]. by apply Hc.
Qed.

Lemma good_init path : good path (length path) init.
Proof. split; simpl; intros H; by try destruct H. Qed.

(** One more index is free of separators once [path[i]] is known to be. *)
Lemma extend_clean (path : jsstring) (i : nat) (e : Z) :
  path !! i <> Some slash ->
  (forall j : nat, Z.of_nat (S i) <= Z.of_nat j < e -> path !! j <> Some slash) ->
  forall j : nat, Z.of_nat i <= Z.of_nat j < e -> path !! j <> Some slash.
Proof.
  intros Hi Hall j Hj. destruct (decide (j = i)) as [->|Hne]; [done|].
  apply Hall. lia.
Qed.

Lemma scan_settled path n v :
  (n <= length path)%nat -> good path n v -> settled path (scan path n v).
Proof.
  revert v. induction n as [|i IH]; intros v Hn Hg.
  - by apply good_settled with 0%nat.
  - cbn [scan].
    destruct (Z.eqb_spec (charCodeAt path i) CHAR_FORWARD_SLASH) as [Hc|Hc].
    + destruct (matchedSlash v) eqn:Hm; cbn [negb].
      * apply IH; [lia|]. destruct Hg as [He Hd Ht].
        specialize (Ht Hm). split; [done| |done].
        intros Hs. destruct (Hd Hs) as [Hn' _]. done.
      * apply good_settled in Hg. intros Hs He. cbn in *. by apply Hg.
    + apply charCodeAt_slash in Hc.
      apply IH; [lia|]. destruct Hg as [He Hd Ht].
      destruct (Z.eqb_spec (end_ v) (-1)) as [E|E];
        destruct (Z.eqb_spec (charCodeAt path i) CHAR_DOT) as [D|D]; cbn;
        repeat match goal with
               | |- context [Z.eqb ?a ?b] => destruct (Z.eqb_spec a b); cbn
               end;
        (split; cbn; intros;
         repeat match goal with
                | H : ?a <> -1, H' : ?a <> -1 -> _ |- _ => specialize (H' H)
                | H : _ /\ _ |- _ => destruct H
                end;
         try done; try lia; try (apply Ht; assumption);
         try (split; [lia|];
              first [ apply extend_clean; [assumption|]; assumption
                    | intros j Hj; replace j with i by lia; assumption ])).
Qed.

Lemma extname_no_slash path : slash ∉ extname path.
Proof.
  unfold extname.
  pose proof (scan_settled path (length path) init (le_n _) (good_init path))
    as Hs.
  set (v := scan path (length path) init) in *.
  destruct (Z.eqb_spec (startDot v) (-1)) as [|Hd]; [apply not_elem_of_nil|].
  destruct (Z.eqb_spec (end_ v) (-1)) as [|He]; [apply not_elem_of_nil|].
  destruct (_ || _); [apply not_elem_of_nil|].
  destruct (Hs Hd He) as (Hr & Hl & Hj).
  unfold slice.
  destruct (Z.ltb_spec (startDot v) 0); [lia|].
  destruct (Z.ltb_spec (end_ v) 0); [lia|].
  rewrite !Z.min_l by lia.
  intros Hin. apply list_elem_of_lookup in Hin. destruct Hin as [k Hk].
  apply lookup_take_Some in Hk. destruct Hk as [Hk Hlt].
  rewrite lookup_drop in Hk. revert Hk. apply Hj. lia.
Qed.

End PathFacts.

(** ** Every run follows a path *)

Arguments lit : simpl never.
Arguments sanitize : simpl never.
Arguments startsWith : simpl never.
Arguments endsWith : simpl never.
Arguments truthy : simpl never.
Arguments of_number : simpl never.
Arguments Path.extname : simpl never.
Arguments upload_key : simpl never.
Arguments upload_url : simpl never.
Arguments not_configured : simpl never.
Arguments json_truthy : simpl never.
Arguments select_sum_size : simpl never.
Arguments or_zero : simpl never.
Arguments error_response : simpl never.
Arguments ok_response : simpl never.

Ltac step :=
  unfold call_replace;
  unfold try_catch, bind, ret, throw, send, db_run, db_get_total;
  cbv beta iota zeta.

Lemma save_metadata_step ctx req key w :
  metadata_step ctx req key w (save_metadata ctx req key w).
Proof.
  unfold save_metadata.
  destruct (uploaderId req) as [uid|] eqn:Hi;
    [destruct (uploaderName req) as [uname|] eqn:Hn|];
    [destruct (truthy uid && truthy uname) eqn:Ht| |];
    try (step; apply metadata_skipped; intros; congruence).
  step. destruct (sql_outcome ctx _ w) as [w2|message] eqn:Hq.
  - by apply metadata_saved.
  - by apply metadata_failed.
Qed.

Lemma renameVideo_path r2Config ctx req w :
  rename_path r2Config ctx req w (renameVideo r2Config ctx req w).
Proof.
  unfold renameVideo.
  destruct (not_configured r2Config) eqn:Hc;
    [step; by apply rename_not_configured|].
  cbv zeta. fold (rename_rejected req).
  destruct (rename_rejected req) eqn:Hv; [step; by apply rename_invalid|].
  destruct (newName req) as [| |b|n|name|] eqn:Hn;
    try (step; apply rename_not_a_string; [done|done|intros; congruence]).
  step.
  fold prefix_videos. fold (renameKey (params0 req) name).
  case_bool_decide as Hk; [by eapply rename_same_key|].
  destruct (s3_outcome ctx _ (bucket w)) as [b1|message] eqn:H1;
    [|apply rename_copy_failed; auto].
  cbn [bucket with_bucket].
  destruct (s3_outcome ctx _ b1) as [b2|message] eqn:H2;
    [|eapply rename_delete_failed; eauto].
  change (with_bucket b2 (with_bucket b1 w)) with (with_bucket b2 w).
  destruct (sql_outcome ctx _ _) as [w3|message] eqn:H3.
  - eapply rename_done; eauto.
  - eapply rename_update_failed; eauto.
Qed.

Lemma deleteVideo_path r2Config ctx key w :
  delete_path r2Config ctx key w (deleteVideo r2Config ctx key w).
Proof.
  unfold deleteVideo.
  destruct (not_configured r2Config) eqn:Hc;
    [step; by apply delete_not_configured|].
  fold (delete_rejected key).
  destruct (delete_rejected key) eqn:Hv; [step; by apply delete_invalid|].
  step.
  destruct (s3_outcome ctx _ (bucket w)) as [b1|message] eqn:H1;
    [|by apply delete_object_failed].
  destruct (sql_outcome ctx _ _) as [w2|message] eqn:H2.
  - eapply delete_done; eauto.
  - eapply delete_cleanup_failed; eauto.
Qed.

Lemma upload_run_path r2Config ctx req w :
  upload_path r2Config ctx req w (uploadVideo r2Config ctx req w).
Proof.
  unfold uploadVideo.
  destruct (not_configured r2Config) eqn:Hc;
    [step; by apply upload_not_configured|].
  destruct (file req) as [f|] eqn:Hf; [|step; by apply upload_no_file].
  step. fold (usage (month_of (new_Date (clock ctx))) (upload_history w)).
  destruct (Z.gtb_spec (usage (month_of (new_Date (clock ctx)))
                              (upload_history w) + Multer.size f) limit)
    as [Hq|Hq]; [eapply upload_over_quota; eauto; lia|].
  destruct (s3_outcome ctx _ (bucket w)) as [b1|message] eqn:H1;
    [|eapply upload_put_failed; eauto].
  destruct (save_metadata ctx req _ _) as [[[]|message] w2 t2] eqn:H2;
    [|rewrite ?app_nil_r; cbn [app]; eapply upload_metadata_failed; eauto].
  destruct (sql_outcome ctx _ w2) as [w3|message] eqn:H3;
    rewrite ?app_nil_r; cbn [app].
  - eapply upload_done; eauto.
  - eapply upload_history_failed; eauto.
Qed.

(** ** What the stores do on each call *)

Lemma copy_returned ctx src dst b b1 :
  s3_outcome ctx (CopyObjectCommand src dst) b = Returned b1 ->
  exists object, b !! src = Some object /\ b1 = <[dst := object]> b.
Proof.
  unfold s3_outcome, s3_apply. destruct (faults ctx _); [discriminate|].
  destruct (b !! src) as [o|]; [|discriminate].
  intros [= <-]. by exists o.
Qed.

Lemma delete_returned ctx key b b1 :
  s3_outcome ctx (DeleteObjectCommand key) b = Returned b1 ->
  b1 = delete key b.
Proof.
  unfold s3_outcome, s3_apply. destruct (faults ctx _); [discriminate|].
  by intros [= <-].
Qed.

Lemma put_returned ctx key object b b1 :
  s3_outcome ctx (PutObjectCommand key object) b = Returned b1 ->
  b1 = <[key := object]> b.
Proof.
  unfold s3_outcome, s3_apply. destruct (faults ctx _); [discriminate|].
  by intros [= <-].
Qed.

Lemma sql_keeps_bucket ctx s w w' :
  sql_outcome ctx s w = Returned w' -> bucket w' = bucket w.
Proof.
  unfold sql_outcome, sql_apply. destruct (faults ctx _); [discriminate|].
  destruct s; repeat case_match; intros [= <-]; reflexivity.
Qed.

Lemma cleanup_returned ctx key w w' :
  sql_outcome ctx (DeleteVideoMetadata key) w = Returned w' ->
  w' = {| bucket := bucket w;
          video_metadata := delete key (video_metadata w);
          upload_history := upload_history w |}.
Proof.
  unfold sql_outcome, sql_apply. destruct (faults ctx _); [discriminate|].
  by intros [= <-].
Qed.

Lemma append_returned ctx sz w w' :
  sql_outcome ctx (InsertUploadHistory sz) w = Returned w' ->
  w' = {| bucket := bucket w;
          video_metadata := video_metadata w;
          upload_history :=
            upload_history w ++
            [{| id := Z.of_nat (length (upload_history w)) + 1;
                size := sz;
                timestamp := CURRENT_TIMESTAMP (clock ctx) |}] |}.
Proof.
  unfold sql_outcome, sql_apply. destruct (faults ctx _); [discriminate|].
  by intros [= <-].
Qed.

Lemma insert_returned ctx key uid uname w w' :
  sql_outcome ctx (InsertVideoMetadata key uid uname) w = Returned w' ->
  bucket w' = bucket w /\ upload_history w' = upload_history w.
Proof.
  unfold sql_outcome, sql_apply. destruct (faults ctx _); [discriminate|].
  case_match; [discriminate|]. by intros [= <-].
Qed.

(** The metadata step leaves the bucket and the ledger alone, and on a
    failure everything. *)
Lemma metadata_step_frame ctx req key w r :
  metadata_step ctx req key w r ->
  bucket (final r) = bucket w /\
  upload_history (final r) = upload_history w /\
  (forall e, e ∈ trace r -> exists s, call e = Sql s) /\
  (forall message, result r = Thrown message ->
     final r = w /\ exists s, trace r = [Failed (Sql s) message]).
Proof.
  destruct 1 as [Hskip|uid uname message Hi Hn Ht Hq|uid uname w2 Hi Hn Ht Hq];
    cbn [final trace result]; (split; [|split; [|split]]).
  - done.
  - done.
  - intros e He. by apply elem_of_nil in He.
  - discriminate.
  - done.
  - done.
  - intros e He. apply list_elem_of_singleton in He. subst e. by eexists.
  - intros m [= <-]. split; [done|]. by eexists.
  - by apply insert_returned in Hq as [Hb _].
  - by apply insert_returned in Hq as [_ Hh].
  - intros e He. apply list_elem_of_singleton in He. subst e. by eexists.
  - discriminate.
Qed.

(** ** The ledger *)

Lemma usage_ledger_sum m rows : usage m rows = ledger_sum m rows.
Proof.
  unfold usage, ledger_sum, select_sum_size, or_zero.
  destruct (filter _ rows) as [|row matching]; [reflexivity|].
  destruct (Z.eqb_spec (foldr Z.add 0 (size <$> row :: matching)) 0) as [E|E];
    [by rewrite E|reflexivity].
Qed.

Lemma ledger_sum_append m rows row :
  ledger_sum m (rows ++ [row]) =
  ledger_sum m rows + (if decide (month_of (timestamp row) = m)
                       then size row else 0).
Proof.
  unfold ledger_sum. rewrite filter_app, fmap_app, foldr_app.
  assert (Hshift : forall (l : list Z) (z : Z),
             foldr Z.add z l = foldr Z.add 0 l + z).
  { induction l as [|x l IH]; intros z; cbn; [lia|]. rewrite IH. lia. }
  rewrite Hshift. f_equal.
  rewrite filter_cons, filter_nil.
  destruct (decide (month_of (timestamp row) = m)); cbn; lia.
Qed.

(** ** Sanitization (upload and rename) *)

Lemma allowed_allow_list c : allowed c = true <-> c ∈ allow_list.
Proof.
  split.
  - intros Ha.
    assert (Hc : (c < 123)%N).
    { unfold allowed, in_class, underscore in Ha.
      destruct (N.ltb_spec c 123) as [|Hge]; [done|exfalso].
      repeat match type of Ha with
             | context [(?a <=? ?b)%N] => destruct (N.leb_spec a b)
             | context [(?a =? ?b)%N] => destruct (N.eqb_spec a b)
             end; cbn in Ha; try discriminate; lia. }
    assert (Hall : Forall (fun n => allowed n = true -> n ∈ allow_list)
                          (N.of_nat <$> seq 0 123)).
    { apply (bool_decide_unpack _). vm_compute. exact I. }
    rewrite Forall_forall in Hall. apply Hall; [|done].
    apply list_elem_of_fmap. exists (N.to_nat c).
    split; [lia|]. apply elem_of_seq. lia.
  - revert c. apply Forall_forall.
    apply (bool_decide_unpack _). vm_compute. exact I.
Qed.

(** C6. Sanitization is a total function of the name; every code unit of
    the result lies in [A-Za-z0-9._-]; position by position, a code unit of
    the class [a-zA-Z0-9.-] is kept and any other becomes an underscore;
    sanitizing the result again changes nothing. *)
Theorem sanitize_allow_list_idempotent (name : jsstring) :
  Forall (fun c => c ∈ allow_list) (sanitize name) /\
  (forall i : nat,
      sanitize name !! i =
      (fun c => if in_class c then c else underscore) <$> name !! i) /\
  length (sanitize name) = length name /\
  sanitize (sanitize name) = sanitize name.
Proof.
  unfold sanitize.
  change (map replace_unit (map replace_unit name))
    with (replace_unit <$> (replace_unit <$> name)).
  change (map replace_unit name) with (replace_unit <$> name).
  repeat split.
  - apply Forall_fmap, Forall_forall. intros c _. cbn.
    apply allowed_allow_list, replace_unit_allowed.
  - intros i. by rewrite list_lookup_fmap.
  - apply length_fmap.
  - rewrite <- list_fmap_compose. apply list_fmap_ext.
    intros i c _. cbn. apply replace_unit_idem.
Qed.

(** ** Rename: the key *)

Lemma renameKey_confined oldKey name : confined (renameKey oldKey name).
Proof.
  unfold renameKey, prefix_videos. eexists. split; [reflexivity|].
  rewrite not_elem_of_app. split; [apply sanitize_no_slash|].
  destruct (endsWith _ _); [apply not_elem_of_nil|].
  apply PathFacts.extname_no_slash.
Qed.

Ltac in_trace :=
  unfold Did, Failed, ok_response, error_response in *;
  repeat match goal with
         | H : _ ∈ [] |- _ => by apply elem_of_nil in H
         | H : _ ∈ _ :: _ |- _ => apply elem_of_cons in H; destruct H as [H|H]
         | H : _ ∈ _ ++ _ |- _ => apply elem_of_app in H; destruct H as [H|H]
         end;
  simplify_eq.

(** C10. The key computed by the rename handler is [videos/] followed by
    code units none of which is a slash; so is every key the handler sends
    a copy to, and every key it reports. *)
Theorem rename_target_confined :
  (forall oldKey name, confined (renameKey oldKey name)) /\
  (forall r2Config ctx req w e src dst,
      e ∈ trace (renameVideo r2Config ctx req w) ->
      call e = S3 (CopyObjectCommand src dst) -> confined dst) /\
  (forall r2Config ctx req w key,
      result (renameVideo r2Config ctx req w)
      = Returned (ok_response (RenameBody key)) -> confined key).
Proof.
  split; [apply renameKey_confined|]. split.
  - intros r2Config ctx req w e src dst.
    destruct (renameVideo_path r2Config ctx req w); cbn [trace];
      intros He Hcall; in_trace; cbn in Hcall; simplify_eq;
      apply renameKey_confined.
  - intros r2Config ctx req w key.
    destruct (renameVideo_path r2Config ctx req w) as
      [| | |name _ _ _ Hk| | | |]; cbn [result]; intros Hres; in_trace.
    + rewrite <- Hk. apply renameKey_confined.
    + apply renameKey_confined.
Qed.

Lemma rename_target_confined_witness :
  confined (lit "videos/My_Clip__.mp4").
Proof.
  apply (proj2 (proj2 rename_target_confined) sample_config quiet
           {| params0 := lit "videos/1690000000-clip.mp4";
              newName := JString (lit "My Clip!!") |} sample_world).
  vm_compute. reflexivity.
Defined.



(** ** Rename: guards and the short circuit *)







(** C8, as the code has it.  A rename whose old key is not under
    [videos/], or whose display name is empty, makes no call and changes
    nothing; the answer is 400 (invalid request) when the object store is
    configured, and 500 (not configured) otherwise, the configuration
    guard coming first. *)
Theorem rename_validation_precedes_effects
    (r2Config : option R2Config) (ctx : Context) (req : RenameRequest)
    (w : World) :
  startsWith (params0 req) (lit "videos/") = false \/
  newName req = JString [] ->
  let r := renameVideo r2Config ctx req w in
  final r = w /\ trace r = [] /\
  result r = Returned (if not_configured r2Config
                       then error_response 500 msg_not_configured
                       else error_response 400 msg_invalid_request).
Proof.
  intros Hbad r. subst r.
  assert (Hv : rename_rejected req = true).
  { unfold rename_rejected. destruct Hbad as [-> | ->].
    - cbn. by rewrite orb_true_r.
    - cbn. by rewrite orb_true_r. }
  destruct (renameVideo_path r2Config ctx req w) as
    [Hc|Hc _|Hc Hv'|? Hc Hv'|? ? Hc Hv'|? ? ? Hc Hv'|? ? ? ? Hc Hv'
     |? ? ? ? Hc Hv'];
    cbn [final trace result]; try congruence.
  - by rewrite Hc.
  - by rewrite Hc.
Qed.

Lemma rename_validation_precedes_effects_witness :
  let r := renameVideo sample_config quiet
             {| params0 := lit "clips/a.mp4";
                newName := JString (lit "b") |} sample_world in
  final r = sample_world /\ trace r = [] /\
  result r = Returned (if not_configured sample_config
                       then error_response 500 msg_not_configured
                       else error_response 400 msg_invalid_request).
Proof.
  apply (rename_validation_precedes_effects sample_config quiet
           {| params0 := lit "clips/a.mp4"; newName := JString (lit "b") |}
           sample_world).
  left. vm_compute. reflexivity.
Defined.

(** C8 as stated fails: with the object store not configured, a rename of
    a key outside [videos/] is answered 500, not 400. *)
Lemma rename_invalid_key_not_always_400 :
  let r := renameVideo None quiet
             {| params0 := lit "clips/a.mp4";
                newName := JString (lit "b") |} sample_world in
  startsWith (lit "clips/a.mp4") (lit "videos/") = false /\
  status <$> (match result r with Returned x => Some x | Thrown _ => None end)
  = Some 500 /\
  result r = Returned (error_response 500 msg_not_configured).
Proof. vm_compute. repeat split; reflexivity. Qed.

(** ** Rename: order of the calls and what a failure leaves *)



(** ** Delete *)

Lemma world_eta (w : World) :
  {| bucket := bucket w; video_metadata := video_metadata w;
     upload_history := upload_history w |} = w.
Proof. by destruct w. Qed.




(** ** Upload *)

(** C2, as the code has it.  An upload whose payload would take the
    month's ledger sum over the limit makes no call and changes no store,
    the ledger included; the answer is 400 (quota exceeded) when the
    object store is configured and 500 (not configured) otherwise, the
    configuration guard coming first. *)
Theorem upload_over_quota_rejected
    (r2Config : option R2Config) (ctx : Context) (req : UploadRequest)
    (f : Multer.File) (w : World) :
  file req = Some f ->
  ledger_sum (month_of (new_Date (clock ctx))) (upload_history w)
    + Multer.size f > limit ->
  let r := uploadVideo r2Config ctx req w in
  final r = w /\ trace r = [] /\
  result r = Returned (if not_configured r2Config
                       then error_response 500 msg_not_configured
                       else error_response 400 msg_quota).
Proof.
  intros Hf Hq r. subst r. rewrite <- usage_ledger_sum in Hq.
  destruct (upload_run_path r2Config ctx req w) as
    [Hc|Hc Hn|f' Hc Hf' Hq'|f' m Hc Hf' Hq'|f' ? ? ? m Hc Hf' Hq'
     |f' ? ? ? m Hc Hf' Hq'|f' ? ? ? ? Hc Hf' Hq'];
    cbn [final trace result];
    try (rewrite Hf in Hf'; injection Hf' as <-; lia).
  - by rewrite Hc.
  - congruence.
  - by rewrite Hc.
Qed.

Lemma upload_over_quota_rejected_witness :
  let r := uploadVideo sample_config later upload_clip full_world in
  final r = full_world /\ trace r = [] /\
  result r = Returned (if not_configured sample_config
                       then error_response 500 msg_not_configured
                       else error_response 400 msg_quota).
Proof.
  apply (upload_over_quota_rejected sample_config later upload_clip
           clip_file full_world).
  - reflexivity.
  - vm_compute. reflexivity.
Defined.

(** C2 as stated fails: with the object store not configured, an upload
    over the quota is answered 500 (not configured), not 400. *)
Lemma over_quota_not_always_400 :
  ledger_sum (month_of (new_Date (clock later))) (upload_history full_world)
    + Multer.size clip_file > limit /\
  uploadVideo None later upload_clip full_world
  = Run (Returned (error_response 500 msg_not_configured)) full_world [].
Proof. vm_compute. split; reflexivity. Qed.

Ltac metadata_cases H :=
  match type of H with
  | save_metadata ?ctx ?req ?key ?w1 = _ =>
    let Hs := fresh "Hs" in
    pose proof (save_metadata_step ctx req key w1) as Hs;
    rewrite H in Hs; inversion Hs; subst; clear Hs
  end.

(** C9. When the write to the object store fails, the upload answers 500
    with the error and no store has changed: no metadata row, no ledger
    entry.  When the write went through, the object is in the bucket at
    the end whatever follows: the put is the only call the handler sends to
    the object store, and a metadata or ledger write that fails afterwards
    is answered 500 with the ledger as it was. *)
Theorem upload_failure_atomicity
    (r2Config : option R2Config) (ctx : Context) (req : UploadRequest)
    (w : World) :
  let r := uploadVideo r2Config ctx req w in
  (forall key object message,
      Failed (S3 (PutObjectCommand key object)) message ∈ trace r ->
      result r = Returned (error_response 500 message) /\
      final r = w /\
      trace r = [Failed (S3 (PutObjectCommand key object)) message]) /\
  (forall key object,
      Did (S3 (PutObjectCommand key object)) ∈ trace r ->
      bucket (final r) = <[key := object]> (bucket w) /\
      (forall e c, e ∈ trace r -> call e = S3 c ->
                   c = PutObjectCommand key object) /\
      (forall s message,
          Failed (Sql s) message ∈ trace r ->
          result r = Returned (error_response 500 message) /\
          upload_history (final r) = upload_history w)).
Proof.
  intros r. subst r.
  destruct (upload_run_path r2Config ctx req w) as
    [Hc|Hc Hn|f Hc Hf Hq|f m Hc Hf Hq key put H1
     |f b1 w2 t2 m Hc Hf Hq key put H1 H2
     |f b1 w2 t2 m Hc Hf Hq key put append H1 H2 H3
     |f b1 w2 t2 w3 Hc Hf Hq key put append H1 H2 H3];
    cbn [final trace result]; try subst put; try subst key;
    try (split; intros; in_trace; done).
  - (* the metadata insert failed *)
    apply put_returned in H1. subst b1.
    metadata_cases H2. cbn [bucket with_bucket upload_history].
    split; [intros; in_trace|].
    intros k o Hin. in_trace. split; [done|]. split.
    + intros e c He Hcall. in_trace; cbn in Hcall; by simplify_eq.
    + intros s message' Hin'. in_trace. done.
  - (* the ledger insert failed *)
    apply put_returned in H1. subst b1. subst append.
    metadata_cases H2; cbn [app bucket with_bucket upload_history].
    + split; [intros; in_trace|].
      intros k o Hin. in_trace. split; [done|]. split.
      * intros e c He Hcall. in_trace; cbn in Hcall; by simplify_eq.
      * intros s message' Hin'. in_trace. done.
    + match goal with
      | H : sql_outcome _ (InsertVideoMetadata _ _ _) _ = Returned _ |- _ =>
          apply insert_returned in H; destruct H as [Hb Hh]
      end.
      cbn [bucket with_bucket upload_history] in Hb, Hh.
      split; [intros; in_trace|].
      intros k o Hin. in_trace. split; [done|]. split.
      * intros e c He Hcall. in_trace; cbn in Hcall; by simplify_eq.
      * intros s message' Hin'. in_trace. done.
  - (* everything went through *)
    apply put_returned in H1. subst b1. subst append.
    apply append_returned in H3. subst w3.
    metadata_cases H2; cbn [app bucket with_bucket upload_history].
    + split; [intros; in_trace|].
      intros k o Hin. in_trace. split; [done|]. split.
      * intros e c He Hcall. in_trace; cbn in Hcall; by simplify_eq.
      * intros s message' Hin'. in_trace.
    + match goal with
      | H : sql_outcome _ (InsertVideoMetadata _ _ _) _ = Returned _ |- _ =>
          apply insert_returned in H; destruct H as [Hb Hh]
      end.
      cbn [bucket with_bucket upload_history] in Hb, Hh.
      split; [intros; in_trace|].
      intros k o Hin. in_trace. split; [done|]. split.
      * intros e c He Hcall. in_trace; cbn in Hcall; by simplify_eq.
      * intros s message' Hin'. in_trace.
Qed.

Lemma upload_failure_atomicity_witness :
  let r := uploadVideo sample_config (put_fails (lit "timeout")) upload_clip
             sample_world in
  result r = Returned (error_response 500 (lit "timeout")) /\
  final r = sample_world.
Proof.
  pose proof (upload_failure_atomicity sample_config
                (put_fails (lit "timeout")) upload_clip sample_world) as H.
  cbv zeta in H. destruct H as [H _].
  destruct (H (lit "videos/1700000000-clip.mp4")
              {| Body := [0; 1; 2]%N; ContentType := lit "video/mp4" |}
              (lit "timeout")) as (Hr & Hf & _).
  - vm_compute. left.
  - split; [exact Hr|exact Hf].
Defined.

(** C3, as the code has it.  An upload with a file, to a configured
    server, whose size fits the month's ledger sum under the limit is not
    turned away: the first call of the run is the write to the object
    store.  When no call of the run fails (that write, the metadata insert,
    made only when the uploader's id and name are both supplied, and the
    ledger insert), the object is stored, the upload succeeds and the
    ledger is the old one followed by one entry of the payload size,
    stamped with the database's time.  The sum of the month of that stamp
    grows by the payload size and no other sum moves; so the usage of the
    month of the quota check afterwards is the usage before plus the
    payload size when the stamp falls in that month. *)
Theorem upload_accounting
    (r2Config : option R2Config) (ctx : Context) (req : UploadRequest)
    (w : World) (f : Multer.File) :
  let r := uploadVideo r2Config ctx req w in
  let month := month_of (new_Date (clock ctx)) in
  let stamp := CURRENT_TIMESTAMP (clock ctx) in
  let key := upload_key (Date_now (clock ctx)) (Multer.originalname f) in
  let object := {| Body := Multer.buffer f;
                   ContentType := Multer.mimetype f |} in
  not_configured r2Config = false ->
  file req = Some f ->
  ledger_sum month (upload_history w) + Multer.size f <= limit ->
  (exists e, head (trace r) = Some e /\
             call e = S3 (PutObjectCommand key object)) /\
  ((forall e, e ∈ trace r -> failure e = None) ->
   Did (S3 (PutObjectCommand key object)) ∈ trace r /\
   bucket (final r) = <[key := object]> (bucket w) /\
   result r
   = Returned (ok_response (UploadBody key (upload_url r2Config key))) /\
   upload_history (final r)
   = upload_history w ++
     [{| id := Z.of_nat (length (upload_history w)) + 1;
         size := Multer.size f; timestamp := stamp |}] /\
   (forall m,
       ledger_sum m (upload_history (final r))
       = ledger_sum m (upload_history w)
         + (if decide (month_of stamp = m) then Multer.size f else 0)) /\
   (month_of stamp = month ->
    usage month (upload_history (final r))
    = usage month (upload_history w) + Multer.size f)).
Proof.
  intros r month stamp key object Hconf Hfile Hquota.
  subst r month stamp key object.
  destruct (upload_run_path r2Config ctx req w) as
    [Hc|Hc Hn|f' Hc Hf Hq|f' m Hc Hf Hq key' put H1
     |f' b1 w2 t2 m Hc Hf Hq key' put H1 H2
     |f' b1 w2 t2 m Hc Hf Hq key' put append H1 H2 H3
     |f' b1 w2 t2 w3 Hc Hf Hq key' put append H1 H2 H3];
    cbn [final trace result]; try congruence;
    rewrite Hfile in Hf; injection Hf as <-;
    try subst put; try subst key';
    try (split; [eexists; split; reflexivity|]).
  - (* rejected for the quota *)
    rewrite usage_ledger_sum in Hq. lia.
  - (* the write to the object store failed *)
    intros Hall. specialize (Hall _ (list_elem_of_here _ _)). discriminate.
  - (* the metadata insert failed *)
    intros Hall. metadata_cases H2.
    specialize (Hall _ (list_elem_of_further _ _ _ (list_elem_of_here _ _))).
    discriminate.
  - (* the ledger insert failed *)
    intros Hall. exfalso.
    assert (Hin : Failed (Sql append) m
                  ∈ Did (S3 (PutObjectCommand
                               (upload_key (Date_now (clock ctx))
                                           (Multer.originalname f))
                               {| Body := Multer.buffer f;
                                  ContentType := Multer.mimetype f |}))
                    :: t2 ++ [Failed (Sql append) m]).
    { apply list_elem_of_further, elem_of_app. right. apply list_elem_of_here. }
    specialize (Hall _ Hin). discriminate.
  - (* everything went through *)
    intros _. subst append.
    pose proof (save_metadata_step ctx req
                  (upload_key (Date_now (clock ctx)) (Multer.originalname f))
                  (with_bucket b1 w)) as Hs.
    apply metadata_step_frame in Hs. rewrite H2 in Hs.
    destruct Hs as (Hb2 & Hh2 & _).
    cbn [final with_bucket bucket upload_history] in Hb2, Hh2.
    apply put_returned in H1. subst b1.
    apply append_returned in H3. subst w3. cbn [upload_history bucket].
    rewrite Hh2, Hb2.
    split; [apply list_elem_of_here|]. split; [done|]. split; [done|].
    split; [done|]. split.
    + intros m. by rewrite ledger_sum_append.
    + intros Hm. rewrite !usage_ledger_sum, ledger_sum_append.
      cbn [timestamp size]. by rewrite decide_True.
Qed.

Lemma upload_accounting_witness :
  let r := uploadVideo sample_config later upload_clip sample_world in
  usage (2025, 3) (upload_history (final r))
  = usage (2025, 3) (upload_history sample_world) + 3 /\
  result r
  = Returned (ok_response
                (UploadBody (lit "videos/1700000000-clip.mp4")
                   (lit "https://cdn.example.org/videos/1700000000-clip.mp4"))).
Proof.
  pose proof (upload_accounting sample_config later upload_clip sample_world
                clip_file) as H.
  cbv zeta in H. destruct H as (_ & H).
  - vm_compute. reflexivity.
  - reflexivity.
  - vm_compute. discriminate.
  - destruct H as (_ & _ & Hr & _ & _ & Hu).
    { intros e He.
      replace (trace _) with
        [Did (S3 (PutObjectCommand (lit "videos/1700000000-clip.mp4")
                    {| Body := [0; 1; 2]%N; ContentType := lit "video/mp4" |}));
         Did (Sql (InsertVideoMetadata (lit "videos/1700000000-clip.mp4")
                     (lit "u1") (lit "Ann")));
         Did (Sql (InsertUploadHistory 3))]
        in He by (vm_compute; reflexivity).
      in_trace; reflexivity. }
    split; [exact (Hu eq_refl)|].
    etransitivity; [exact Hr|]. vm_compute. reflexivity.
Defined.

(** C3 as stated fails, in four ways.  The write to the object store
    goes through and the quota is respected, yet the upload is answered 500
    and the ledger gets no entry: first because the metadata insert meets
    an existing [video_key], then because the ledger insert itself fails.
    Third, nothing fails and the upload succeeds, but the month has turned
    between the quota check and the ledger insert: the usage of the month
    of the check is what it was, and that of the new month is not the old
    usage plus the payload.  Fourth, the server is not configured: nothing
    fails, since nothing is called, and the answer is 500. *)
Lemma within_quota_upload_not_always_accounted :
  (let r := uploadVideo sample_config quiet upload_clip sample_world in
   ledger_sum (2025, 3) (upload_history sample_world) + Multer.size clip_file
     <= limit /\
   trace r
   = [Did (S3 (PutObjectCommand (lit "videos/1690000000-clip.mp4")
                 {| Body := [0; 1; 2]%N; ContentType := lit "video/mp4" |}));
      Failed (Sql (InsertVideoMetadata (lit "videos/1690000000-clip.mp4")
                     (lit "u1") (lit "Ann"))) unique_failed] /\
   result r = Returned (error_response 500 unique_failed) /\
   upload_history (final r) = upload_history sample_world) /\
  (let r := uploadVideo sample_config (history_fails (lit "disk I/O error"))
              upload_clip sample_world in
   trace r
   = [Did (S3 (PutObjectCommand (lit "videos/1700000000-clip.mp4")
                 {| Body := [0; 1; 2]%N; ContentType := lit "video/mp4" |}));
      Did (Sql (InsertVideoMetadata (lit "videos/1700000000-clip.mp4")
                  (lit "u1") (lit "Ann")));
      Failed (Sql (InsertUploadHistory 3)) (lit "disk I/O error")] /\
   result r = Returned (error_response 500 (lit "disk I/O error")) /\
   upload_history (final r) = upload_history sample_world) /\
  (let r := uploadVideo sample_config month_turns upload_clip sample_world in
   month_of (new_Date (clock month_turns)) = (2025, 3) /\
   trace r
   = [Did (S3 (PutObjectCommand (lit "videos/1700000000-clip.mp4")
                 {| Body := [0; 1; 2]%N; ContentType := lit "video/mp4" |}));
      Did (Sql (InsertVideoMetadata (lit "videos/1700000000-clip.mp4")
                  (lit "u1") (lit "Ann")));
      Did (Sql (InsertUploadHistory 3))] /\
   result r
   = Returned (ok_response
                 (UploadBody (lit "videos/1700000000-clip.mp4")
                    (lit "https://cdn.example.org/videos/1700000000-clip.mp4"))) /\
   usage (2025, 3) (upload_history (final r))
   = usage (2025, 3) (upload_history sample_world) /\
   usage (2025, 4) (upload_history (final r))
   <> usage (2025, 3) (upload_history sample_world) + Multer.size clip_file) /\
  (let r := uploadVideo None quiet upload_clip sample_world in
   ledger_sum (2025, 3) (upload_history sample_world) + Multer.size clip_file
     <= limit /\
   trace r = [] /\
   result r = Returned (error_response 500 msg_not_configured) /\
   upload_history (final r) = upload_history sample_world).
Proof. vm_compute. repeat split; try reflexivity; discriminate. Qed.

(** * Further properties of the handlers *)

(** ** Delete: guard and effect *)

(** A delete whose key is empty or not under [videos/] makes no call and
    changes nothing; it is answered 400 (invalid key) when the object
    store is configured and 500 otherwise. *)
Theorem delete_invalid_key_no_effect
    (r2Config : option R2Config) (ctx : Context) (key : jsstring)
    (w : World) :
  startsWith key (lit "videos/") = false ->
  deleteVideo r2Config ctx key w
  = Run (Returned (if not_configured r2Config
                   then error_response 500 msg_not_configured
                   else error_response 400 msg_invalid_key)) w [].
Proof.
  intros Hbad.
  assert (Hv : delete_rejected key = true).
  { unfold delete_rejected. rewrite Hbad. apply orb_true_r. }
  destruct (deleteVideo_path r2Config ctx key w) as
    [Hc|Hc _|? Hc Hv'|? ? Hc Hv'|? ? Hc Hv']; try congruence.
  - by rewrite Hc.
  - by rewrite Hc.
Qed.

Lemma delete_invalid_key_no_effect_witness :
  deleteVideo sample_config (delete_fails (lit "timeout"))
    (lit "../database.sqlite") sample_world
  = Run (Returned (error_response 400 msg_invalid_key)) sample_world [].
Proof.
  apply (delete_invalid_key_no_effect sample_config
           (delete_fails (lit "timeout")) (lit "../database.sqlite")
           sample_world).
  vm_compute. reflexivity.
Defined.

(** A delete that reports success has removed the object and the
    metadata row of its key and nothing else: every other key of the bucket
    and of the table is as before, and so is the ledger, hence the usage of
    every month; deleting a video gives no quota back. *)
Theorem delete_success_effect
    (r2Config : option R2Config) (ctx : Context) (key : jsstring)
    (w : World) :
  let r := deleteVideo r2Config ctx key w in
  result r = Returned (ok_response SuccessBody) ->
  bucket (final r) = delete key (bucket w) /\
  video_metadata (final r) = delete key (video_metadata w) /\
  upload_history (final r) = upload_history w /\
  (forall m, usage m (upload_history (final r)) = usage m (upload_history w)) /\
  startsWith key (lit "videos/") = true.
Proof.
  intros r. subst r.
  destruct (deleteVideo_path r2Config ctx key w) as
    [Hc|Hc Hv|m Hc Hv H1|b1 m Hc Hv H1 H2|b1 w2 Hc Hv H1 H2];
    cbn [final result]; intros Hok; try (in_trace; done).
  apply delete_returned in H1. subst b1.
  apply cleanup_returned in H2. subst w2.
  cbn [bucket video_metadata upload_history with_bucket].
  repeat split.
  unfold delete_rejected in Hv. apply orb_false_elim in Hv as [_ Hs].
  by apply negb_false_iff in Hs.
Qed.

Lemma delete_success_effect_witness :
  let r := deleteVideo sample_config quiet
             (lit "videos/1690000000-clip.mp4") two_videos in
  bucket (final r) = {[ lit "videos/intro.mp4" := intro ]} /\
  video_metadata (final r) = {[ lit "videos/intro.mp4" := bob ]} /\
  usage (2025, 3) (upload_history (final r)) = 5.
Proof.
  pose proof (delete_success_effect sample_config quiet
                (lit "videos/1690000000-clip.mp4") two_videos) as H.
  cbv zeta in H. destruct H as (Hb & Hm & _ & Hu & _).
  - vm_compute. reflexivity.
  - split; [|split].
    + etransitivity; [exact Hb|]. vm_compute. reflexivity.
    + etransitivity; [exact Hm|]. vm_compute. reflexivity.
    + etransitivity; [apply Hu|]. vm_compute. reflexivity.
Defined.

Lemma update_returned ctx new old w w' :
  new <> old ->
  sql_outcome ctx (UpdateVideoKey new old) w = Returned w' ->
  bucket w' = bucket w /\
  upload_history w' = upload_history w /\
  video_metadata w' =
    match video_metadata w !! old with
    | Some row => <[new := row]> (delete old (video_metadata w))
    | None => video_metadata w
    end.
Proof.
  intros Hne. unfold sql_outcome, sql_apply.
  destruct (faults ctx _); [discriminate|].
  destruct (video_metadata w !! old) as [row|]; [|by intros [= <-]].
  rewrite bool_decide_eq_false_2 by done.
  destruct (video_metadata w !! new); [discriminate|]. by intros [= <-].
Qed.

Lemma rename_success_stores
    (r2Config : option R2Config) (ctx : Context) (req : RenameRequest)
    (w : World) (key : jsstring) :
  let r := renameVideo r2Config ctx req w in
  let oldKey := params0 req in
  result r = Returned (ok_response (RenameBody key)) ->
  key <> oldKey ->
  exists object,
    bucket w !! oldKey = Some object /\
    bucket (final r) = delete oldKey (<[key := object]> (bucket w)) /\
    video_metadata (final r) =
      match video_metadata w !! oldKey with
      | Some row => <[key := row]> (delete oldKey (video_metadata w))
      | None => video_metadata w
      end /\
    upload_history (final r) = upload_history w.
Proof.
  intros r oldKey. subst r oldKey.
  destruct (renameVideo_path r2Config ctx req w) as
    [Hc|Hc Hv|Hc Hv Hs|name Hc Hv Hn Hk
     |name m Hc Hv Hn newKey Hne H1|name b1 m Hc Hv Hn newKey Hne H1 H2
     |name b1 b2 m Hc Hv Hn newKey Hne H1 H2 H3
     |name b1 b2 w3 Hc Hv Hn newKey Hne H1 H2 H3];
    cbn [final result]; intros Hok Hkey; try (in_trace; done).
  assert (key = newKey) by (in_trace; done). subst key.
  apply copy_returned in H1 as (object & Ho & ->).
  apply delete_returned in H2. subst b2.
  apply update_returned in H3 as (Hb & Hh & Hm); [|done].
  exists object. cbn [bucket with_bucket video_metadata upload_history] in *.
  by rewrite Hb, Hh, Hm.
Qed.

(** A rename that reports success under a new key has moved the object:
    the bucket holds at the new key what it held at the old one, and
    nothing at the old key; the metadata row of the old key, when there is
    one, is now under the new key; the ledger is as before. *)
Theorem rename_success_effect
    (r2Config : option R2Config) (ctx : Context) (req : RenameRequest)
    (w : World) (key : jsstring) :
  let r := renameVideo r2Config ctx req w in
  let oldKey := params0 req in
  result r = Returned (ok_response (RenameBody key)) ->
  key <> oldKey ->
  exists object,
    bucket w !! oldKey = Some object /\
    bucket (final r) = delete oldKey (<[key := object]> (bucket w)) /\
    video_metadata (final r) =
      match video_metadata w !! oldKey with
      | Some row => <[key := row]> (delete oldKey (video_metadata w))
      | None => video_metadata w
      end /\
    upload_history (final r) = upload_history w.
Proof. apply rename_success_stores. Qed.

Lemma copy_goes_through ctx src dst b object :
  faults ctx (S3 (CopyObjectCommand src dst)) = None ->
  b !! src = Some object ->
  s3_outcome ctx (CopyObjectCommand src dst) b = Returned (<[dst := object]> b).
Proof. intros Hf Ho. unfold s3_outcome, s3_apply. by rewrite Hf, Ho. Qed.

Lemma delete_goes_through ctx key b :
  faults ctx (S3 (DeleteObjectCommand key)) = None ->
  s3_outcome ctx (DeleteObjectCommand key) b = Returned (delete key b).
Proof. intros Hf. unfold s3_outcome, s3_apply. by rewrite Hf. Qed.

Lemma update_meets_row ctx new old w row other :
  faults ctx (Sql (UpdateVideoKey new old)) = None ->
  new <> old ->
  video_metadata w !! old = Some row ->
  video_metadata w !! new = Some other ->
  sql_outcome ctx (UpdateVideoKey new old) w = Thrown unique_failed.
Proof.
  intros Hf Hne Ho Hn. unfold sql_outcome, sql_apply. rewrite Hf, Ho.
  rewrite bool_decide_eq_false_2 by done. by rewrite Hn.
Qed.

(** Renaming a video onto the key of another one that has a metadata
    row: with no fault at all, the copy replaces the other object, the old
    key is deleted, and only then the metadata update meets the taken
    primary key.  The answer is 500, the bucket has changed, and the table
    has not: the row of the old key stays behind without an object, and
    the row of the target now describes the renamed content. *)
Theorem rename_onto_taken_key
    (r2Config : option R2Config) (ctx : Context) (req : RenameRequest)
    (w : World) (name : jsstring) (object : S3Object) (row other : Uploader) :
  let r := renameVideo r2Config ctx req w in
  let oldKey := params0 req in
  let newKey := renameKey oldKey name in
  not_configured r2Config = false ->
  rename_rejected req = false ->
  newName req = JString name ->
  (forall c, faults ctx c = None) ->
  newKey <> oldKey ->
  bucket w !! oldKey = Some object ->
  video_metadata w !! oldKey = Some row ->
  video_metadata w !! newKey = Some other ->
  result r = Returned (error_response 500 unique_failed) /\
  bucket (final r) !! newKey = Some object /\
  bucket (final r) !! oldKey = None /\
  video_metadata (final r) = video_metadata w /\
  trace r = [Did (S3 (CopyObjectCommand oldKey newKey));
             Did (S3 (DeleteObjectCommand oldKey));
             Failed (Sql (UpdateVideoKey newKey oldKey)) unique_failed].
Proof.
  intros r oldKey newKey Hc Hv Hn Hq Hne Ho Hrow Hother. subst r.
  pose proof (copy_goes_through ctx oldKey newKey (bucket w) object
                (Hq _) Ho) as Hcopy.
  pose proof (delete_goes_through ctx oldKey (<[newKey := object]> (bucket w))
                (Hq _)) as Hdel.
  pose proof (update_meets_row ctx newKey oldKey
                (with_bucket (delete oldKey (<[newKey := object]> (bucket w))) w)
                row other (Hq _) Hne Hrow Hother) as Hupd.
  subst oldKey newKey.
  destruct (renameVideo_path r2Config ctx req w) as
    [Hc'|Hc' Hv'|Hc' Hv' Hs|name' Hc' Hv' Hn' Hk
     |name' m Hc' Hv' Hn' newKey Hne' H1|name' b1 m Hc' Hv' Hn' newKey Hne' H1 H2
     |name' b1 b2 m Hc' Hv' Hn' newKey Hne' H1 H2 H3
     |name' b1 b2 w3 Hc' Hv' Hn' newKey Hne' H1 H2 H3];
    try congruence;
    try (by destruct (Hs name));
    try subst newKey;
    rewrite Hn in Hn'; injection Hn' as <-; try congruence.
  (* only the failed update is left *)
  rewrite Hcopy in H1. injection H1 as <-.
    rewrite Hdel in H2. injection H2 as <-.
    rewrite Hupd in H3. injection H3 as <-.
    cbn [result final trace bucket with_bucket video_metadata].
    split; [done|]. split.
    + rewrite lookup_delete_ne by done. apply lookup_insert_eq.
    + split; [apply lookup_delete_eq|done].
Qed.

Lemma rename_success_effect_witness :
  let r := renameVideo sample_config quiet rename_clip sample_world in
  bucket (final r) = {[ lit "videos/My_Clip__.mp4" := clip ]} /\
  video_metadata (final r) = {[ lit "videos/My_Clip__.mp4" := ann ]}.
Proof.
  pose proof (rename_success_effect sample_config quiet rename_clip
                sample_world (lit "videos/My_Clip__.mp4")) as H.
  cbv zeta in H. destruct H as (object & Ho & Hb & Hm & _).
  - vm_compute. reflexivity.
  - vm_compute. discriminate.
  - assert (object = clip) as ->.
    { assert (Hc : bucket sample_world !! params0 rename_clip = Some clip)
        by (vm_compute; reflexivity).
      rewrite Hc in Ho. by injection Ho. }
    split.
    + etransitivity; [exact Hb|]. vm_compute. reflexivity.
    + etransitivity; [exact Hm|]. vm_compute. reflexivity.
Defined.

Lemma rename_onto_taken_key_witness :
  let r := renameVideo sample_config quiet rename_to_intro two_videos in
  result r = Returned (error_response 500 unique_failed) /\
  bucket (final r) !! lit "videos/intro.mp4" = Some clip /\
  bucket (final r) !! lit "videos/1690000000-clip.mp4" = None /\
  video_metadata (final r) = video_metadata two_videos.
Proof.
  pose proof (rename_onto_taken_key sample_config quiet rename_to_intro
                two_videos (lit "intro") clip ann bob) as H.
  cbv zeta in H. destruct H as (Hr & Hn & Ho & Hm & _).
  - reflexivity.
  - vm_compute. reflexivity.
  - reflexivity.
  - reflexivity.
  - vm_compute. discriminate.
  - vm_compute. reflexivity.
  - vm_compute. reflexivity.
  - vm_compute. reflexivity.
  - split; [exact Hr|]. split; [|split; [exact Ho|exact Hm]].
    etransitivity; [|exact Hn]. f_equal.
Defined.

(** ** Upload: what an answer means and what a run can touch *)

Lemma metadata_insert_returned ctx key uid uname w w' :
  sql_outcome ctx (InsertVideoMetadata key uid uname) w = Returned w' ->
  video_metadata w !! key = None /\
  w' = {| bucket := bucket w;
          video_metadata :=
            <[key := {| uploader_id := uid; uploader_name := uname |}]>
              (video_metadata w);
          upload_history := upload_history w |}.
Proof.
  unfold sql_outcome, sql_apply. destruct (faults ctx _); [discriminate|].
  destruct (video_metadata w !! key); [discriminate|]. by intros [= <-].
Qed.

Lemma metadata_step_stores ctx req key w r :
  metadata_step ctx req key w r ->
  bucket (final r) = bucket w /\
  upload_history (final r) = upload_history w /\
  (video_metadata (final r) = video_metadata w \/
   exists u, named_uploader req = Some u /\
             video_metadata w !! key = None /\
             video_metadata (final r) = <[key := u]> (video_metadata w)) /\
  (result r = Returned tt ->
   video_metadata (final r) =
     match named_uploader req with
     | Some u => <[key := u]> (video_metadata w)
     | None => video_metadata w
     end).
Proof.
  unfold named_uploader.
  destruct 1 as [Hskip|uid uname message Hi Hn Ht Hq|uid uname w2 Hi Hn Ht Hq];
    cbn [final trace result].
  - repeat split; [by left|]. intros _.
    destruct (uploaderId req) as [uid|]; [|done].
    destruct (uploaderName req) as [uname|]; [|done].
    by rewrite (Hskip uid uname).
  - repeat split; [by left|discriminate].
  - apply metadata_insert_returned in Hq as [Hfree ->].
    cbn [bucket video_metadata upload_history]. rewrite Hi, Hn, Ht.
    repeat split. right. by eexists.
Qed.

Ltac metadata_stores H :=
  match type of H with
  | save_metadata ?c ?r ?k ?w1 = _ =>
    let Hs := fresh "Hs" in
    pose proof (save_metadata_step c r k w1) as Hs;
    rewrite H in Hs; apply metadata_step_stores in Hs;
    clear H; rename Hs into H
  end.

Lemma upload_answer_stores
    (r2Config : option R2Config) (ctx : Context) (req : UploadRequest)
    (w : World) :
  let r := uploadVideo r2Config ctx req w in
  (forall key url,
      result r = Returned (ok_response (UploadBody key url)) ->
      exists f,
        file req = Some f /\
        key = upload_key (Date_now (clock ctx)) (Multer.originalname f) /\
        url = upload_url r2Config key /\
        bucket (final r) !! key
        = Some {| Body := Multer.buffer f;
                  ContentType := Multer.mimetype f |} /\
        upload_history (final r)
        = upload_history w ++
          [{| id := Z.of_nat (length (upload_history w)) + 1;
              size := Multer.size f;
              timestamp := CURRENT_TIMESTAMP (clock ctx) |}] /\
        video_metadata (final r)
        = match named_uploader req with
          | Some u => <[key := u]> (video_metadata w)
          | None => video_metadata w
          end) /\
  (forall code message,
      result r = Returned (error_response code message) ->
      upload_history (final r) = upload_history w).
Proof.
  intros r. subst r.
  destruct (upload_run_path r2Config ctx req w) as
    [Hc|Hc Hn|f Hc Hf Hq|f m Hc Hf Hq key' put H1
     |f b1 w2 t2 m Hc Hf Hq key' put H1 H2
     |f b1 w2 t2 m Hc Hf Hq key' put append H1 H2 H3
     |f b1 w2 t2 w3 Hc Hf Hq key' put append H1 H2 H3];
    cbn [final trace result]; try subst put; try subst append;
    (split; [intros key url Hok|intros code message Herr]);
    try (in_trace; done).
  - pose proof (save_metadata_step ctx req key' (with_bucket b1 w)) as Hs.
    rewrite H2 in Hs. apply metadata_step_stores in Hs.
    by destruct Hs as (_ & Hh & _).
  - pose proof (save_metadata_step ctx req key' (with_bucket b1 w)) as Hs.
    rewrite H2 in Hs. apply metadata_step_stores in Hs.
    by destruct Hs as (_ & Hh & _).
  - assert (key = key' /\ url = upload_url r2Config key') as [-> ->]
      by (in_trace; done).
    pose proof (save_metadata_step ctx req key' (with_bucket b1 w)) as Hs.
    rewrite H2 in Hs. apply metadata_step_stores in Hs.
    cbn [final result bucket with_bucket upload_history video_metadata] in Hs.
    destruct Hs as (Hb & Hh & _ & Hm).
    apply put_returned in H1. subst b1.
    apply append_returned in H3. subst w3.
    cbn [bucket upload_history video_metadata].
    exists f. rewrite Hb, Hh, (Hm eq_refl), lookup_insert_eq. done.
Qed.

(** What an answer of the upload handler tells.  A success names the key
    under which the bucket now holds the payload with its content type,
    the ledger has gained exactly one entry of the payload size, and the
    metadata table has gained the row of the named uploader, or is
    unchanged when the request names none.  An error answer, whatever its
    cause, leaves the ledger as it was. *)
Theorem upload_answer_meaning
    (r2Config : option R2Config) (ctx : Context) (req : UploadRequest)
    (w : World) :
  let r := uploadVideo r2Config ctx req w in
  (forall key url,
      result r = Returned (ok_response (UploadBody key url)) ->
      exists f,
        file req = Some f /\
        key = upload_key (Date_now (clock ctx)) (Multer.originalname f) /\
        url = upload_url r2Config key /\
        bucket (final r) !! key
        = Some {| Body := Multer.buffer f;
                  ContentType := Multer.mimetype f |} /\
        upload_history (final r)
        = upload_history w ++
          [{| id := Z.of_nat (length (upload_history w)) + 1;
              size := Multer.size f;
              timestamp := CURRENT_TIMESTAMP (clock ctx) |}] /\
        video_metadata (final r)
        = match named_uploader req with
          | Some u => <[key := u]> (video_metadata w)
          | None => video_metadata w
          end) /\
  (forall code message,
      result r = Returned (error_response code message) ->
      upload_history (final r) = upload_history w).
Proof. apply upload_answer_stores. Qed.

Lemma upload_answer_meaning_witness :
  let r := uploadVideo sample_config later upload_clip sample_world in
  bucket (final r) !! lit "videos/1700000000-clip.mp4" = Some clip /\
  video_metadata (final r) !! lit "videos/1700000000-clip.mp4" = Some ann /\
  length (upload_history (final r)) = 2%nat.
Proof.
  pose proof (upload_answer_meaning sample_config later upload_clip
                sample_world) as H.
  cbv zeta in H. destruct H as [H _].
  destruct (H (lit "videos/1700000000-clip.mp4")
              (lit "https://cdn.example.org/videos/1700000000-clip.mp4"))
    as (f & Hf & _ & _ & Hb & Hh & Hm).
  - vm_compute. reflexivity.
  - injection Hf as <-. cbv zeta. split; [exact Hb|]. split.
    + rewrite Hm. vm_compute. reflexivity.
    + rewrite Hh. vm_compute. reflexivity.
Defined.

(** What a run of the upload handler can touch, whatever its answer: in
    the bucket the key of the upload and no other; in the metadata table
    no existing row (a row is only ever added, at a key that had none);
    in the ledger nothing that is already there. *)
Theorem upload_frame
    (r2Config : option R2Config) (ctx : Context) (req : UploadRequest)
    (w : World) :
  let r := uploadVideo r2Config ctx req w in
  (forall k,
      (forall f, file req = Some f ->
                 k <> upload_key (Date_now (clock ctx))
                                 (Multer.originalname f)) ->
      bucket (final r) !! k = bucket w !! k) /\
  (forall k row,
      video_metadata w !! k = Some row ->
      video_metadata (final r) !! k = Some row) /\
  upload_history w `prefix_of` upload_history (final r).
Proof.
  intros r. subst r.
  destruct (upload_run_path r2Config ctx req w) as
    [Hc|Hc Hn|f Hc Hf Hq|f m Hc Hf Hq key' put H1
     |f b1 w2 t2 m Hc Hf Hq key' put H1 H2
     |f b1 w2 t2 m Hc Hf Hq key' put append H1 H2 H3
     |f b1 w2 t2 w3 Hc Hf Hq key' put append H1 H2 H3];
    cbn [final]; try (by repeat split); try subst put; try subst append;
    apply put_returned in H1; subst b1;
    metadata_stores H2;
    cbn [final bucket with_bucket upload_history video_metadata] in *;
    destruct H2 as (Hb & Hh & Hm & _);
    try (apply append_returned in H3; subst w3;
         cbn [bucket upload_history video_metadata]);
    rewrite Hb, Hh.
  all: split; [|split].
  all: try (intros k Hk; rewrite lookup_insert_ne; [done|];
            intros <-; by apply (Hk f)).
  all: try (intros k row Hrow; destruct Hm as [->|(u & _ & Hfree & ->)];
            [done|]; rewrite lookup_insert_ne; [done|]; congruence).
  all: try done.
  by apply prefix_app_r.
Qed.

Lemma upload_frame_witness :
  let r := uploadVideo sample_config quiet
             {| file := Some clip_file; uploaderId := Some (lit "u2");
                uploaderName := Some (lit "Bob") |} sample_world in
  video_metadata (final r) !! lit "videos/1690000000-clip.mp4" = Some ann.
Proof.
  apply (proj1 (proj2 (upload_frame sample_config quiet
           {| file := Some clip_file; uploaderId := Some (lit "u2");
              uploaderName := Some (lit "Bob") |} sample_world))).
  vm_compute. reflexivity.
Defined.

(** ** Upload: the key *)

Lemma lit_uint_digits d :
  Forall (fun c => is_digit c = true) (lit (NilEmpty.string_of_uint d)).
Proof. induction d; cbn; constructor; done. Qed.

Lemma lit_uint0_digits d :
  Forall (fun c => is_digit c = true) (lit (NilZero.string_of_uint d)).
Proof.
  destruct d; try apply (lit_uint_digits (_ _)).
  cbn. by constructor.
Qed.

Lemma lit_uint0_nonempty d : lit (NilZero.string_of_uint d) <> [].
Proof. by destruct d. Qed.

Lemma lit_inj s1 s2 : lit s1 = lit s2 -> s1 = s2.
Proof.
  revert s2. induction s1 as [|a s1 IH]; intros [|b s2]; cbn; try done.
  intros [= Hab Hs]. f_equal; [|by apply IH].
  rewrite <- (ascii_N_embedding a), <- (ascii_N_embedding b). by rewrite Hab.
Qed.

Lemma of_number_inj z1 z2 : of_number z1 = of_number z2 -> z1 = z2.
Proof.
  unfold of_number. intros H. apply lit_inj in H.
  assert (Hnn : forall z, Z.to_int z <> Decimal.Pos Decimal.Nil /\
                          Z.to_int z <> Decimal.Neg Decimal.Nil).
  { intros [|p|p]; cbn; split; try discriminate;
      intros [= Hp]; by apply DecimalPos.Unsigned.to_uint_nonnil in Hp. }
  assert (Hi : Some (Z.to_int z1) = Some (Z.to_int z2)).
  { rewrite <- (NilZero.isi (Z.to_int z1)) by apply Hnn.
    rewrite <- (NilZero.isi (Z.to_int z2)) by apply Hnn. by rewrite H. }
  injection Hi as Hi.
  rewrite <- (DecimalZ.of_to z1), <- (DecimalZ.of_to z2). by rewrite Hi.
Qed.

(** The shape of a printed number: an optional minus sign, then digits,
    at least one. *)
Lemma of_number_shape z :
  exists sign digits,
    of_number z = sign ++ digits /\
    (sign = [] \/ sign = lit "-") /\
    digits <> [] /\ Forall (fun c => is_digit c = true) digits.
Proof.
  unfold of_number. destruct (Z.to_int z) as [d|d]; cbn [NilZero.string_of_int].
  - exists [], (lit (NilZero.string_of_uint d)).
    repeat split; [by left|apply lit_uint0_nonempty|apply lit_uint0_digits].
  - exists (lit "-"), (lit (NilZero.string_of_uint d)).
    repeat split; [by right|apply lit_uint0_nonempty|apply lit_uint0_digits].
Qed.

Lemma digits_then_minus (d1 d2 r1 r2 : jsstring) :
  Forall (fun c => is_digit c = true) d1 ->
  Forall (fun c => is_digit c = true) d2 ->
  d1 ++ 45%N :: r1 = d2 ++ 45%N :: r2 -> d1 = d2 /\ r1 = r2.
Proof.
  revert d2. induction d1 as [|c d1 IH]; intros [|c2 d2] H1 H2; cbn.
  - by intros [= ->].
  - intros [= <- _]. by apply Forall_cons_1 in H2 as [? _].
  - intros [= -> _]. by apply Forall_cons_1 in H1 as [? _].
  - intros [= -> Hr]. apply Forall_cons_1 in H1 as [_ H1].
    apply Forall_cons_1 in H2 as [_ H2].
    destruct (IH d2 H1 H2 Hr) as [-> ->]. done.
Qed.

Lemma is_digit_allowed c : is_digit c = true -> c ∈ allow_list.
Proof.
  intros Hd. apply allowed_allow_list. unfold allowed, in_class.
  unfold is_digit in Hd. rewrite Hd. by rewrite !orb_true_r.
Qed.

Lemma is_digit_not_minus c : is_digit c = true -> c <> 45%N.
Proof. intros Hd ->. discriminate. Qed.

Lemma sanitize_allow_listed name :
  Forall (fun c => c ∈ allow_list) (sanitize name).
Proof.
  unfold sanitize. change (map replace_unit name) with (replace_unit <$> name).
  apply Forall_fmap, Forall_forall. intros c _. cbn.
  apply allowed_allow_list, replace_unit_allowed.
Qed.

Lemma minus_allow_listed : Forall (fun c => c ∈ allow_list) (lit "-").
Proof. apply (bool_decide_unpack _). vm_compute. exact I. Qed.

Lemma slash_not_allow_listed : slash ∉ allow_list.
Proof. apply (bool_decide_unpack _). vm_compute. exact I. Qed.

Lemma upload_key_form now originalname :
  stored_key (upload_key now originalname).
Proof.
  unfold upload_key. eexists. split; [reflexivity|].
  apply Forall_app. split; [|apply Forall_app; split].
  - destruct (of_number_shape now) as (sign & digits & -> & Hsign & _ & Hd).
    apply Forall_app. split.
    + destruct Hsign as [-> | ->]; [constructor|apply minus_allow_listed].
    + eapply Forall_impl; [exact Hd|]. apply is_digit_allowed.
  - apply minus_allow_listed.
  - apply sanitize_allow_listed.
Qed.

Lemma stored_key_confined key : stored_key key -> confined key.
Proof.
  intros (rest & -> & Hall). exists rest. split; [done|].
  intros Hin. rewrite Forall_forall in Hall. apply Hall in Hin.
  by apply slash_not_allow_listed.
Qed.

(** Whatever the file is called and whatever the clock says, the key the
    upload handler writes to is [videos/] followed by code units of the
    allow list: a number, a hyphen, the sanitized name.  No file name can
    lead outside the namespace. *)
Theorem upload_key_stored (now : Z) (originalname : jsstring) :
  stored_key (upload_key now originalname) /\
  confined (upload_key now originalname).
Proof.
  split; [|apply stored_key_confined]; apply upload_key_form.
Qed.

(** Two uploads whose clocks read different milliseconds get different
    keys, whatever the two file names are. *)
Theorem upload_keys_differ (now1 now2 : Z) (name1 name2 : jsstring) :
  now1 <> now2 -> upload_key now1 name1 <> upload_key now2 name2.
Proof.
  intros Hne Heq. apply Hne. clear Hne. unfold upload_key in Heq.
  apply app_inv_head in Heq.
  destruct (of_number_shape now1) as (s1 & d1 & E1 & Hs1 & Hn1 & Hd1).
  destruct (of_number_shape now2) as (s2 & d2 & E2 & Hs2 & Hn2 & Hd2).
  apply of_number_inj. rewrite E1, E2. rewrite E1, E2 in Heq.
  change (lit "-") with [45%N] in *. rewrite <- !app_assoc in Heq.
  cbn [app] in Heq.
  destruct Hs1 as [-> | ->], Hs2 as [-> | ->]; cbn [app] in *.
  - by apply digits_then_minus in Heq as [-> _].
  - destruct d1 as [|c d1]; [done|]. injection Heq as -> _.
    apply Forall_cons_1 in Hd1 as [Hc _]. discriminate.
  - destruct d2 as [|c d2]; [done|]. injection Heq as <- _.
    apply Forall_cons_1 in Hd2 as [Hc _]. discriminate.
  - injection Heq as Heq. by apply digits_then_minus in Heq as [-> _].
Qed.

Lemma upload_keys_differ_witness :
  upload_key 1690000000 (lit "0-clip.mp4")
  <> upload_key 16900000000 (lit "clip.mp4").
Proof. apply (upload_keys_differ 1690000000 16900000000). lia. Defined.

(** ** What each handler can do to the stores *)

Lemma upload_stores r2Config ctx req w :
  let r := uploadVideo r2Config ctx req w in
  (bucket (final r) = bucket w \/
   exists f,
     file req = Some f /\
     bucket (final r)
     = <[upload_key (Date_now (clock ctx)) (Multer.originalname f)
         := {| Body := Multer.buffer f;
               ContentType := Multer.mimetype f |}]> (bucket w)) /\
  (video_metadata (final r) = video_metadata w \/
   exists f u,
     file req = Some f /\
     video_metadata w
       !! upload_key (Date_now (clock ctx)) (Multer.originalname f) = None /\
     video_metadata (final r)
     = <[upload_key (Date_now (clock ctx)) (Multer.originalname f) := u]>
         (video_metadata w)) /\
  (upload_history (final r) = upload_history w \/
   exists f,
     file req = Some f /\
     usage (month_of (new_Date (clock ctx))) (upload_history w)
       + Multer.size f <= limit /\
     upload_history (final r)
     = upload_history w ++
       [{| id := Z.of_nat (length (upload_history w)) + 1;
           size := Multer.size f;
           timestamp := CURRENT_TIMESTAMP (clock ctx) |}]).
Proof.
  intros r. subst r.
  destruct (upload_run_path r2Config ctx req w) as
    [Hc|Hc Hn|f Hc Hf Hq|f m Hc Hf Hq key' put H1
     |f b1 w2 t2 m Hc Hf Hq key' put H1 H2
     |f b1 w2 t2 m Hc Hf Hq key' put append H1 H2 H3
     |f b1 w2 t2 w3 Hc Hf Hq key' put append H1 H2 H3];
    cbn [final]; try (repeat split; by left);
    try subst put; try subst append;
    apply put_returned in H1; subst b1;
    metadata_stores H2;
    cbn [final bucket with_bucket upload_history video_metadata] in *;
    destruct H2 as (Hb & Hh & Hm & _);
    try (apply append_returned in H3; subst w3;
         cbn [bucket upload_history video_metadata]);
    rewrite Hb, Hh;
    (split; [right; by exists f|]);
    (split; [destruct Hm as [->|(u & _ & Hfree & ->)];
             [by left|right; by exists f, u]|]).
  - by left.
  - by left.
  - right. by exists f.
Qed.

Lemma delete_stores r2Config ctx key w :
  let r := deleteVideo r2Config ctx key w in
  (bucket (final r) = bucket w \/ bucket (final r) = delete key (bucket w)) /\
  (video_metadata (final r) = video_metadata w \/
   video_metadata (final r) = delete key (video_metadata w)) /\
  upload_history (final r) = upload_history w.
Proof.
  intros r. subst r.
  destruct (deleteVideo_path r2Config ctx key w) as
    [Hc|Hc Hv|m Hc Hv H1|b1 m Hc Hv H1 H2|b1 w2 Hc Hv H1 H2];
    cbn [final]; try (repeat split; by left);
    apply delete_returned in H1; subst b1.
  - cbn. repeat split; [by right|by left].
  - apply cleanup_returned in H2. subst w2. cbn. repeat split; by right.
Qed.

Lemma rename_stores r2Config ctx req w :
  let r := renameVideo r2Config ctx req w in
  let oldKey := params0 req in
  upload_history (final r) = upload_history w /\
  (final r = w \/
   exists name object,
     let newKey := renameKey oldKey name in
     newName req = JString name /\
     bucket w !! oldKey = Some object /\
     (bucket (final r) = <[newKey := object]> (bucket w) \/
      bucket (final r) = delete oldKey (<[newKey := object]> (bucket w))) /\
     (video_metadata (final r) = video_metadata w \/
      exists row,
        video_metadata w !! oldKey = Some row /\
        video_metadata (final r)
        = <[newKey := row]> (delete oldKey (video_metadata w)))).
Proof.
  intros r oldKey. subst r oldKey.
  destruct (renameVideo_path r2Config ctx req w) as
    [Hc|Hc Hv|Hc Hv Hs|name Hc Hv Hn Hk
     |name m Hc Hv Hn newKey Hne H1|name b1 m Hc Hv Hn newKey Hne H1 H2
     |name b1 b2 m Hc Hv Hn newKey Hne H1 H2 H3
     |name b1 b2 w3 Hc Hv Hn newKey Hne H1 H2 H3];
    cbn [final]; try (split; [done|by left]);
    apply copy_returned in H1 as (object & Ho & ->).
  - split; [done|]. right. exists name, object. cbn.
    repeat split; [done|done|by left|by left].
  - apply delete_returned in H2. subst b2.
    split; [done|]. right. exists name, object. cbn.
    repeat split; [done|done|by right|by left].
  - apply delete_returned in H2. subst b2.
    apply update_returned in H3 as (Hb & Hh & Hm); [|done].
    cbn [bucket with_bucket video_metadata upload_history] in *.
    split; [done|]. right. exists name, object. cbv zeta.
    rewrite Hb, Hm. repeat split; [done|done|by right|].
    destruct (video_metadata w !! params0 req) as [row|]; [|by left].
    right. by exists row.
Qed.

(** ** Invariants over any sequence of requests *)

Lemma serve_all_cons r2Config rq rqs w :
  serve_all r2Config (rq :: rqs) w
  = serve_all r2Config rqs (final (serve r2Config rq w)).
Proof. reflexivity. Qed.

Lemma slice_subseteq (s : jsstring) (from to : Z) c :
  c ∈ slice s from to -> c ∈ s.
Proof.
  unfold slice. intros Hin.
  apply subseteq_take in Hin. by apply subseteq_drop in Hin.
Qed.

Lemma extname_subseteq path c : c ∈ Path.extname path -> c ∈ path.
Proof.
  unfold Path.extname. destruct (_ || _).
  - intros Hin. by apply elem_of_nil in Hin.
  - apply slice_subseteq.
Qed.

Lemma prefix_videos_units c :
  c ∈ lit "videos/" -> c ∈ allow_list \/ c = slash.
Proof.
  revert c. apply Forall_forall.
  apply (bool_decide_unpack _). vm_compute. exact I.
Qed.

Lemma renameKey_stored oldKey name :
  stored_key oldKey -> stored_key (renameKey oldKey name).
Proof.
  intros (rest & -> & Hrest). unfold renameKey, prefix_videos.
  eexists. split; [reflexivity|].
  apply Forall_app. split; [apply sanitize_allow_listed|].
  destruct (endsWith _ _); [constructor|].
  apply Forall_forall. intros c Hc.
  pose proof (PathFacts.extname_no_slash (lit "videos/" ++ rest)) as Hns.
  apply extname_subseteq in Hc as Hin. apply elem_of_app in Hin as [Hin|Hin].
  - apply prefix_videos_units in Hin as [Hin| ->]; [done|]. by destruct Hns.
  - rewrite Forall_forall in Hrest. by apply Hrest.
Qed.

Lemma serve_keeps_keys r2Config rq w :
  well_keyed w -> well_keyed (final (serve r2Config rq w)).
Proof.
  intros [Hb Hm]. destruct rq as [ctx req|ctx key|ctx req]; cbn [serve].
  - pose proof (upload_stores r2Config ctx req w) as (Hb' & Hm' & _).
    cbv zeta in Hb', Hm'. split.
    + destruct Hb' as [->|(f & _ & ->)]; [done|]. intros k Hk.
      destruct (decide (k = upload_key (Date_now (clock ctx))
                                       (Multer.originalname f))) as [->|Hne].
      * apply upload_key_form.
      * rewrite lookup_insert_ne in Hk by done. by apply Hb.
    + destruct Hm' as [->|(f & u & _ & _ & ->)]; [done|]. intros k Hk.
      destruct (decide (k = upload_key (Date_now (clock ctx))
                                       (Multer.originalname f))) as [->|Hne].
      * apply upload_key_form.
      * rewrite lookup_insert_ne in Hk by done. by apply Hm.
  - pose proof (delete_stores r2Config ctx key w) as (Hb' & Hm' & _).
    cbv zeta in Hb', Hm'. split.
    + destruct Hb' as [-> | ->]; [done|]. intros k Hk.
      apply Hb. apply lookup_delete_is_Some in Hk. tauto.
    + destruct Hm' as [-> | ->]; [done|]. intros k Hk.
      apply Hm. apply lookup_delete_is_Some in Hk. tauto.
  - pose proof (rename_stores r2Config ctx req w) as (_ & Hr).
    cbv zeta in Hr.
    destruct Hr as [->|(name & object & _ & Ho & Hb' & Hm')]; [done|].
    assert (Hnew : stored_key (renameKey (params0 req) name)).
    { apply renameKey_stored, Hb. by rewrite Ho. }
    split.
    + intros k Hk. destruct Hb' as [Hb' | Hb']; rewrite Hb' in Hk.
      * apply lookup_insert_is_Some in Hk as [<- | [_ Hk]]; [done|by apply Hb].
      * apply lookup_delete_is_Some in Hk as [_ Hk].
        apply lookup_insert_is_Some in Hk as [<- | [_ Hk]]; [done|by apply Hb].
    + intros k Hk. destruct Hm' as [Hm' | (row & _ & Hm')]; rewrite Hm' in Hk.
      * by apply Hm.
      * apply lookup_insert_is_Some in Hk as [<- | [_ Hk]]; [done|].
        apply lookup_delete_is_Some in Hk as [_ Hk]. by apply Hm.
Qed.

Lemma serve_keeps_quota r2Config rq w :
  steady rq -> within_quota w -> within_quota (final (serve r2Config rq w)).
Proof.
  intros Hs Hq. destruct rq as [ctx req|ctx key|ctx req]; cbn [serve].
  - pose proof (upload_stores r2Config ctx req w) as (_ & _ & Hh).
    cbv zeta in Hh. destruct Hh as [Hh|(f & _ & Hle & Hh)];
      intros m; rewrite Hh; [apply Hq|].
    rewrite ledger_sum_append. cbn [timestamp size]. cbn [steady] in Hs.
    rewrite Hs. case_decide as Hm; [|specialize (Hq m); lia].
    subst m. by rewrite <- usage_ledger_sum.
  - pose proof (delete_stores r2Config ctx key w) as (_ & _ & Hh).
    cbv zeta in Hh. intros m. rewrite Hh. apply Hq.
  - pose proof (rename_stores r2Config ctx req w) as (Hh & _).
    cbv zeta in Hh. intros m. rewrite Hh. apply Hq.
Qed.

Lemma serve_extends_ledger r2Config rq w :
  upload_history w `prefix_of` upload_history (final (serve r2Config rq w)).
Proof.
  destruct rq as [ctx req|ctx key|ctx req]; cbn [serve].
  - pose proof (upload_stores r2Config ctx req w) as (_ & _ & Hh).
    cbv zeta in Hh. destruct Hh as [->|(f & _ & _ & ->)];
      [done|by apply prefix_app_r].
  - pose proof (delete_stores r2Config ctx key w) as (_ & _ & Hh).
    cbv zeta in Hh. by rewrite Hh.
  - pose proof (rename_stores r2Config ctx req w) as (Hh & _).
    cbv zeta in Hh. by rewrite Hh.
Qed.

(** Whatever requests are served, in whatever order and with whatever
    faults, every key of the bucket and of the metadata table stays of
    the form [videos/] plus allow-listed code units. *)
Theorem keys_stay_well_formed
    (r2Config : option R2Config) (rqs : list Request) (w : World) :
  well_keyed w -> well_keyed (serve_all r2Config rqs w).
Proof.
  revert w. induction rqs as [|rq rqs IH]; intros w Hw; [done|].
  rewrite serve_all_cons. by apply IH, serve_keeps_keys.
Qed.

(** Served one after the other by a server whose ledger stamps fall in
    the month of the quota check, no sequence of uploads, deletes and
    renames takes any month of the ledger over the limit. *)
Theorem quota_never_exceeded
    (r2Config : option R2Config) (rqs : list Request) (w : World) :
  Forall steady rqs -> within_quota w ->
  within_quota (serve_all r2Config rqs w).
Proof.
  revert w. induction rqs as [|rq rqs IH]; intros w Hs Hw; [done|].
  apply Forall_cons_1 in Hs as [Hrq Hs].
  rewrite serve_all_cons. by apply IH, serve_keeps_quota.
Qed.

Lemma serve_ledger_length r2Config rq w :
  (length (upload_history (final (serve r2Config rq w)))
   <= length (upload_history w) + (if is_upload rq then 1 else 0))%nat.
Proof.
  destruct rq as [ctx req|ctx key|ctx req]; cbn [serve is_upload].
  - pose proof (upload_stores r2Config ctx req w) as (_ & _ & Hh).
    cbv zeta in Hh. destruct Hh as [->|(f & _ & _ & ->)]; [lia|].
    rewrite length_app. cbn. lia.
  - pose proof (delete_stores r2Config ctx key w) as (_ & _ & Hh).
    cbv zeta in Hh. rewrite Hh. lia.
  - pose proof (rename_stores r2Config ctx req w) as (Hh & _).
    cbv zeta in Hh. rewrite Hh. lia.
Qed.

(** The ledger only grows: after any sequence of requests the former
    ledger is a prefix of the new one, and it has grown by at most one
    entry per upload request; deletes and renames add and remove
    nothing. *)
Theorem ledger_append_only
    (r2Config : option R2Config) (rqs : list Request) (w : World) :
  upload_history w `prefix_of` upload_history (serve_all r2Config rqs w) /\
  (length (upload_history (serve_all r2Config rqs w))
   <= length (upload_history w) + length (List.filter is_upload rqs))%nat.
Proof.
  revert w. induction rqs as [|rq rqs IH]; intros w.
  - split; [done|cbn; lia].
  - rewrite serve_all_cons.
    destruct (IH (final (serve r2Config rq w))) as [Hp Hl]. split.
    + etransitivity; [apply serve_extends_ledger|exact Hp].
    + pose proof (serve_ledger_length r2Config rq w) as Hs.
      cbn [List.filter]. destruct (is_upload rq); cbn [length]; lia.
Qed.

Lemma well_keyed_empty : well_keyed empty_world.
Proof.
  split; intros k [x Hx]; cbn in Hx; by rewrite lookup_empty in Hx.
Qed.

Lemma keys_stay_well_formed_witness :
  well_keyed (serve_all sample_config busy_day empty_world).
Proof.
  apply (keys_stay_well_formed sample_config busy_day empty_world).
  apply well_keyed_empty.
Defined.

Lemma quota_never_exceeded_witness :
  within_quota (serve_all sample_config busy_day empty_world).
Proof.
  apply (quota_never_exceeded sample_config busy_day empty_world).
  - unfold busy_day. repeat constructor.
  - intros m. vm_compute. discriminate.
Defined.

Example storageHistory_sample :
  storageHistory ledger_world
  = [ {| StorageHistory.month := (2025, 4); StorageHistory.total := 10 |};
      {| StorageHistory.month := (2025, 3); StorageHistory.total := 7 |} ] /\
  storageUsage march ledger_world
  = {| StorageUsage.used := 7; StorageUsage.limit := 10737418240 |}.
Proof. vm_compute. split; reflexivity. Qed.

#[local] Instance month_ge_total : Total month_ge.
Proof. intros [y1 m1] [y2 m2]. unfold month_ge. cbn. lia. Qed.

#[local] Instance month_ge_trans : Transitive month_ge.
Proof. intros [y1 m1] [y2 m2] [y3 m3]. unfold month_ge. cbn. lia. Qed.

Lemma month_ge_refl a : month_ge a a.
Proof. destruct a. unfold month_ge. cbn. lia. Qed.

Lemma month_ge_antisym a b : month_ge a b -> month_ge b a -> a = b.
Proof.
  destruct a as [y1 m1], b as [y2 m2]. unfold month_ge. cbn.
  intros H1 H2. f_equal; lia.
Qed.

Lemma StronglySorted_take {A} (R : relation A) n l :
  StronglySorted R l -> StronglySorted R (take n l).
Proof.
  intros Hs. revert n. induction Hs as [|x l Hs IH Hx]; intros [|n]; cbn;
    try constructor; [apply IH|].
  eapply Forall_forall. intros y Hy. rewrite Forall_forall in Hx.
  apply Hx. by apply subseteq_take in Hy.
Qed.

Lemma StronglySorted_strict (l : list month_key) :
  NoDup l -> StronglySorted month_ge l -> StronglySorted month_gt l.
Proof.
  intros Hn Hs. induction Hs as [|x l Hs IH Hx]; constructor.
  - apply IH. by apply NoDup_cons in Hn as [_ ?].
  - apply NoDup_cons in Hn as [Hx' _]. rewrite Forall_forall in *.
    intros y Hy. split; [by apply Hx|]. by intros ->.
Qed.

Lemma history_months_sorted w : StronglySorted month_gt (history_months w).
Proof.
  unfold history_months. apply StronglySorted_strict.
  - eapply sublist_NoDup; [|apply sublist_take].
    rewrite merge_sort_Permutation. apply NoDup_remove_dups.
  - apply StronglySorted_take, StronglySorted_merge_sort; apply _.
Qed.

Lemma history_months_elem w m :
  m ∈ history_months w ->
  exists r, r ∈ upload_history w /\ month_of (timestamp r) = m.
Proof.
  unfold history_months. intros Hin. apply subseteq_take in Hin.
  rewrite merge_sort_Permutation in Hin.
  apply elem_of_remove_dups, list_elem_of_fmap in Hin as (r & -> & Hr).
  by exists r.
Qed.

Lemma storageHistory_months w :
  StorageHistory.month <$> storageHistory w = history_months w.
Proof.
  unfold storageHistory, history_months. rewrite <- list_fmap_compose.
  etransitivity; [|apply list_fmap_id]. by apply list_fmap_ext.
Qed.

Lemma storageHistory_elem w e :
  e ∈ storageHistory w ->
  StorageHistory.month e ∈ history_months w /\
  StorageHistory.total e
  = ledger_sum (StorageHistory.month e) (upload_history w).
Proof.
  unfold storageHistory. intros Hin.
  apply list_elem_of_fmap in Hin as (m & -> & Hm). by split.
Qed.

(** The history has at most twelve rows, their months strictly
    descending (so no month twice); each row is a month that has an entry
    in the ledger and carries the sum of the sizes stamped in it. *)
Theorem storage_history_shape (w : World) :
  let history := storageHistory w in
  (length history <= 12)%nat /\
  StronglySorted month_gt (StorageHistory.month <$> history) /\
  Forall (fun e =>
            StorageHistory.total e
            = ledger_sum (StorageHistory.month e) (upload_history w) /\
            exists r, r ∈ upload_history w /\
                      month_of (timestamp r) = StorageHistory.month e)
         history.
Proof.
  intros history. subst history. split; [|split].
  - unfold storageHistory. rewrite length_fmap, length_take. lia.
  - rewrite storageHistory_months. apply history_months_sorted.
  - apply Forall_forall. intros e He.
    apply storageHistory_elem in He as [Hm Ht]. split; [done|].
    by apply history_months_elem.
Qed.

Lemma storage_history_shape_witness :
  Forall (fun e =>
            StorageHistory.total e
            = ledger_sum (StorageHistory.month e) (upload_history ledger_world) /\
            exists r, r ∈ upload_history ledger_world /\
                      month_of (timestamp r) = StorageHistory.month e)
         (storageHistory ledger_world).
Proof. apply (proj2 (proj2 (storage_history_shape ledger_world))). Defined.

Lemma ledger_sum_cons m r rows :
  ledger_sum m (r :: rows)
  = (if decide (month_of (timestamp r) = m) then size r else 0)
    + ledger_sum m rows.
Proof.
  unfold ledger_sum. rewrite filter_cons.
  destruct (decide (month_of (timestamp r) = m)); cbn; lia.
Qed.

Lemma sum_Permutation (l k : list Z) :
  l ≡ₚ k -> foldr Z.add 0 l = foldr Z.add 0 k.
Proof. induction 1; cbn; lia. Qed.

Lemma sum_pointwise {A} (f g : A -> Z) (l : list A) :
  foldr Z.add 0 ((fun x => f x + g x) <$> l)
  = foldr Z.add 0 (f <$> l) + foldr Z.add 0 (g <$> l).
Proof. induction l as [|x l IH]; cbn; lia. Qed.

Lemma sum_indicator (m : month_key) (z : Z) (ms : list month_key) :
  NoDup ms ->
  foldr Z.add 0 ((fun m' => if decide (m = m') then z else 0) <$> ms)
  = if decide (m ∈ ms) then z else 0.
Proof.
  induction 1 as [|m' ms Hm' Hn IH]; cbn; [done|]. rewrite IH.
  destruct (decide (m = m')) as [<-|Hne], (decide (m ∈ ms)) as [Hin|Hout];
    try done.
  - rewrite decide_True by apply list_elem_of_here. lia.
  - rewrite decide_True by (by apply list_elem_of_further). lia.
  - rewrite decide_False; [lia|]. intros [?|?]%elem_of_cons; done.
Qed.

Lemma sum_by_month (ms : list month_key) (rows : list HistoryRow) :
  NoDup ms ->
  (forall r, r ∈ rows -> month_of (timestamp r) ∈ ms) ->
  foldr Z.add 0 ((fun m => ledger_sum m rows) <$> ms)
  = foldr Z.add 0 (size <$> rows).
Proof.
  intros Hn. induction rows as [|r rows IH]; intros Hall.
  - clear. induction ms as [|m ms IH]; [done|].
    rewrite fmap_cons. cbn [foldr]. by rewrite IH.
  - etransitivity.
    { apply (f_equal (foldr Z.add 0)). apply list_fmap_ext.
      intros i m _. apply ledger_sum_cons. }
    rewrite (sum_pointwise
               (fun m => if decide (month_of (timestamp r) = m)
                         then size r else 0)
               (fun m => ledger_sum m rows)).
    rewrite sum_indicator by done.
    rewrite decide_True by (apply Hall, list_elem_of_here).
    rewrite IH; [done|]. intros r' Hr'. by apply Hall, list_elem_of_further.
Qed.

(** When the ledger spans at most twelve months nothing is cut off: every
    month with an entry has its row, and the totals of the history add up
    to the sum of all the sizes of the ledger. *)
Theorem storage_history_complete (w : World) :
  (length (remove_dups ((fun r => month_of (timestamp r))
                          <$> upload_history w)) <= 12)%nat ->
  let history := storageHistory w in
  (forall r, r ∈ upload_history w ->
             month_of (timestamp r) ∈ StorageHistory.month <$> history) /\
  foldr Z.add 0 (StorageHistory.total <$> history)
  = foldr Z.add 0 (size <$> upload_history w).
Proof.
  intros Hlen history. subst history.
  set (months := remove_dups ((fun r => month_of (timestamp r))
                                <$> upload_history w)) in *.
  assert (Hperm : history_months w ≡ₚ months).
  { unfold history_months. fold months.
    rewrite take_ge; [apply merge_sort_Permutation|].
    by rewrite merge_sort_Permutation. }
  split.
  - intros r Hr. rewrite storageHistory_months, Hperm.
    apply elem_of_remove_dups, list_elem_of_fmap. by exists r.
  - unfold storageHistory. fold months.
    rewrite <- list_fmap_compose.
    change (take 12 (merge_sort month_ge months)) with (history_months w).
    etransitivity.
    { apply sum_Permutation. apply fmap_Permutation. exact Hperm. }
    apply (sum_by_month months (upload_history w)).
    + apply NoDup_remove_dups.
    + intros r Hr. apply elem_of_remove_dups, list_elem_of_fmap. by exists r.
Qed.

Lemma storage_history_complete_witness :
  foldr Z.add 0 (StorageHistory.total <$> storageHistory ledger_world) = 17.
Proof.
  etransitivity.
  - apply (storage_history_complete ledger_world). vm_compute. lia.
  - vm_compute. reflexivity.
Defined.

Lemma storageUsage_used now w :
  StorageUsage.used (storageUsage now w)
  = ledger_sum (month_of now) (upload_history w).
Proof. unfold storageUsage. cbn. apply usage_ledger_sum. Qed.

(** The two storage endpoints agree: a row of the history for the month
    of the clock carries the [used] of the usage endpoint; and when the
    ledger has an entry in that month and none in a later one, that row is
    the first of the history. *)
Theorem usage_agrees_with_history (now : Timestamp) (w : World) :
  let history := storageHistory w in
  let used := StorageUsage.used (storageUsage now w) in
  (forall e, e ∈ history -> StorageHistory.month e = month_of now ->
             StorageHistory.total e = used) /\
  ((exists r, r ∈ upload_history w /\ month_of (timestamp r) = month_of now) ->
   (forall r, r ∈ upload_history w ->
              month_ge (month_of now) (month_of (timestamp r))) ->
   head history = Some {| StorageHistory.month := month_of now;
                          StorageHistory.total := used |}).
Proof.
  intros history used. subst history used. rewrite storageUsage_used. split.
  - intros e He Hm. apply storageHistory_elem in He as [_ Ht]. by rewrite <- Hm.
  - intros (r & Hr & Hm) Hmax.
    assert (Hin : month_of now ∈ merge_sort month_ge
                    (remove_dups ((fun r => month_of (timestamp r))
                                    <$> upload_history w))).
    { rewrite merge_sort_Permutation.
      apply elem_of_remove_dups, list_elem_of_fmap. by exists r. }
    assert (Hs : StronglySorted month_ge
                   (merge_sort month_ge
                      (remove_dups ((fun r => month_of (timestamp r))
                                      <$> upload_history w))))
      by (apply StronglySorted_merge_sort; apply _).
    assert (Hall : forall m, m ∈ merge_sort month_ge
                      (remove_dups ((fun r => month_of (timestamp r))
                                      <$> upload_history w)) ->
                    month_ge (month_of now) m).
    { intros m Hmin. rewrite merge_sort_Permutation in Hmin.
      apply elem_of_remove_dups, list_elem_of_fmap in Hmin as (r' & -> & Hr').
      by apply Hmax. }
    unfold storageHistory, ledger_sum.
    destruct (merge_sort month_ge _) as [|m ms]; [by apply elem_of_nil in Hin|].
    assert (m = month_of now) as ->.
    { apply StronglySorted_inv in Hs as [_ Hm'].
      apply month_ge_antisym; [|apply Hall, list_elem_of_here].
      apply elem_of_cons in Hin as [<-|Hin]; [apply month_ge_refl|].
      rewrite Forall_forall in Hm'. by apply Hm'. }
    reflexivity.
Qed.

Lemma usage_agrees_with_history_witness :
  head (storageHistory ledger_world)
  = Some {| StorageHistory.month := (2025, 4); StorageHistory.total := 10 |}.
Proof.
  pose proof (usage_agrees_with_history april ledger_world) as H.
  cbv zeta in H. destruct H as [_ H].
  etransitivity; [apply H|].
  - exists {| id := 2; size := 10; timestamp := april |}.
    split; [|reflexivity]. unfold ledger_world. cbn [upload_history].
    apply list_elem_of_further, list_elem_of_here.
  - apply Forall_forall. unfold ledger_world. cbn [upload_history].
    repeat (apply Forall_cons; split; [unfold month_ge; cbn; lia|]).
    apply Forall_nil_2.
  - vm_compute. reflexivity.
Defined.

(** ** [path.extname] on a path whose last component is known *)

Module ExtnameFacts.
Import Path.
Import ExtnameLoop.

Ltac fields :=
  cbn [startDot startPart end_ matchedSlash preDotState].

Lemma scan_plain path i c v :
  path !! i = Some c -> c <> slash ->
  scan path (S i) v = scan path i (advance c i v).
Proof.
  intros Hi Hc. cbn [scan]. unfold charCodeAt. unfold code_unit in *.
  rewrite Hi.
  destruct (Z.eqb_spec (Z.of_N c) CHAR_FORWARD_SLASH) as [E|E].
  - destruct Hc. unfold CHAR_FORWARD_SLASH in E. unfold slash. lia.
  - reflexivity.
Qed.

Lemma scan_stop path i v :
  path !! i = Some slash -> matchedSlash v = false ->
  scan path (S i) v
  = {| startDot := startDot v; startPart := Z.of_nat i + 1;
       end_ := end_ v; matchedSlash := matchedSlash v;
       preDotState := preDotState v |}.
Proof.
  intros Hi Hm. cbn [scan]. unfold charCodeAt. unfold code_unit in *.
  rewrite Hi, Hm. reflexivity.
Qed.

Lemma scan_run s pre post v :
  Forall (fun c => c <> slash) s ->
  scan (pre ++ s ++ post) (length pre + length s) v
  = scan (pre ++ s ++ post) (length pre) (advance_run s (length pre) v).
Proof.
  revert pre. induction s as [|c s IH]; intros pre Hs.
  - cbn. by rewrite Nat.add_0_r.
  - apply Forall_cons_1 in Hs as [Hc Hs].
    specialize (IH (pre ++ [c]) Hs).
    rewrite <- !app_assoc in IH. cbn [app] in IH.
    rewrite length_app in IH. cbn [length] in IH.
    cbn [app].
    replace (length pre + length (c :: s))%nat
      with (length pre + 1 + length s)%nat by (cbn; lia).
    rewrite IH. replace (length pre + 1)%nat with (S (length pre)) by lia.
    rewrite (scan_plain _ _ c); [done| |done].
    by rewrite lookup_app_r, Nat.sub_diag.
Qed.

(** A run with neither dot nor slash, before any dot has been seen. *)
Lemma advance_run_plain s i v :
  Forall (fun c => c <> dot /\ c <> slash) s -> s <> [] ->
  startDot v = -1 ->
  advance_run s i v
  = {| startDot := -1; startPart := startPart v;
       end_ := (if end_ v =? -1 then Z.of_nat (i + length s) else end_ v);
       matchedSlash := (if end_ v =? -1 then false else matchedSlash v);
       preDotState := preDotState v |}.
Proof.
  destruct v as [sd sp e ms pds]. cbn [startDot startPart end_ matchedSlash
                                       preDotState].
  intros Hs Hne ->. revert i Hs Hne.
  induction s as [|c s IH]; intros i Hs Hne; [done|].
  apply Forall_cons_1 in Hs as [[Hc _] Hs]. cbn [advance_run].
  assert (Hcode : (Z.of_N c =? CHAR_DOT) = false).
  { apply Z.eqb_neq. unfold CHAR_DOT. unfold dot in Hc. lia. }
  destruct s as [|c' s].
  - cbn [advance_run]. unfold advance. fields. rewrite Hcode.
    destruct (Z.eqb_spec e (-1)) as [E|E]; fields; cbn [Z.eqb negb];
      f_equal; cbn [length]; lia.
  - rewrite IH by done. unfold advance. fields. rewrite Hcode.
    destruct (Z.eqb_spec e (-1)) as [E|E]; fields.
    + replace (Z.of_nat (S i + length (c' :: s)) =? -1) with false
        by (symmetry; apply Z.eqb_neq; lia).
      fields. cbn [Z.eqb negb]. f_equal. cbn [length]. lia.
    + rewrite (proj2 (Z.eqb_neq _ _) E). fields. cbn [Z.eqb negb]. done.
Qed.

(** A run without slash once a dot has been seen: only [preDotState]
    moves, and the leftmost code unit decides it. *)
Lemma advance_run_left c s i v :
  startDot v <> -1 -> end_ v <> -1 ->
  advance_run (c :: s) i v
  = {| startDot := startDot v; startPart := startPart v;
       end_ := end_ v; matchedSlash := matchedSlash v;
       preDotState := (if decide (c = dot) then 1 else -1) |}.
Proof.
  destruct v as [sd sp e ms pds]. fields. intros Hd He.
  assert (Hsd : (sd =? -1) = false) by (by apply Z.eqb_neq).
  assert (He' : (e =? -1) = false) by (by apply Z.eqb_neq).
  assert (Hstep : forall c i p,
             advance c i {| startDot := sd; startPart := sp; end_ := e;
                            matchedSlash := ms; preDotState := p |}
             = {| startDot := sd; startPart := sp; end_ := e;
                  matchedSlash := ms;
                  preDotState := (if decide (c = dot) then 1 else -1) |}).
  { intros c' i' p. unfold advance. fields. rewrite He'. fields.
    rewrite Hsd. cbn [negb].
    destruct (decide (c' = dot)) as [->|Hc].
    - cbn. destruct (p =? 1) eqn:E; cbn; [|done].
      apply Z.eqb_eq in E. by subst.
    - replace (Z.of_N c' =? CHAR_DOT) with false; [done|].
      symmetry. apply Z.eqb_neq. unfold CHAR_DOT. unfold dot in Hc. lia. }
  revert c i. induction s as [|c' s IH]; intros c i.
  - cbn [advance_run]. apply Hstep.
  - change (advance_run (c :: c' :: s) i
              {| startDot := sd; startPart := sp; end_ := e;
                 matchedSlash := ms; preDotState := pds |})
      with (advance c i
              (advance_run (c' :: s) (S i)
                 {| startDot := sd; startPart := sp; end_ := e;
                    matchedSlash := ms; preDotState := pds |})).
    rewrite IH. apply Hstep.
Qed.

Lemma scan_run_at path s pre post n v :
  path = pre ++ s ++ post -> n = (length pre + length s)%nat ->
  Forall (fun c => c <> slash) s ->
  scan path n v = scan path (length pre) (advance_run s (length pre) v).
Proof. intros -> ->. apply scan_run. Qed.

Lemma no_slash_weaken (x : jsstring) :
  Forall (fun c => c <> dot /\ c <> slash) x -> Forall (fun c => c <> slash) x.
Proof. intros H. eapply Forall_impl; [exact H|]. cbn. tauto. Qed.

(** The variables when the loop leaves a last component [c ++ "." ++ x]
    that follows a slash, [x] without dot. *)
Lemma scan_component dir c x :
  Forall (fun c => c <> slash) c ->
  Forall (fun c => c <> dot /\ c <> slash) x ->
  let path := dir ++ [slash] ++ c ++ [dot] ++ x in
  scan path (length path) init
  = {| startDot := Z.of_nat (length dir + 1 + length c);
       startPart := Z.of_nat (length dir + 1);
       end_ := Z.of_nat (length path);
       matchedSlash := false;
       preDotState :=
         match c with
         | [] => 0
         | c0 :: _ => if decide (c0 = dot) then 1 else -1
         end |}.
Proof.
  intros Hc Hx path.
  set (i := (length dir + 1 + length c)%nat).
  assert (Hlen : length path = (S i + length x)%nat).
  { subst path i. rewrite !length_app. cbn [length]. lia. }
  (* the run [x] *)
  rewrite (scan_run_at path x (dir ++ [slash] ++ c ++ [dot]) [] _ init);
    [|subst path; by rewrite app_nil_r, <- !app_assoc
     |rewrite Hlen; subst i; rewrite !length_app; cbn [length]; lia
     |by apply no_slash_weaken].
  replace (length (dir ++ [slash] ++ c ++ [dot])) with (S i)
    by (subst i; rewrite !length_app; cbn [length]; lia).
  (* the dot *)
  rewrite (scan_plain path i dot);
    [|subst path i;
      rewrite (app_assoc dir), (app_assoc (dir ++ [slash]));
      rewrite lookup_app_r by (rewrite !length_app; cbn [length]; lia);
      replace (_ - _)%nat with 0%nat
        by (rewrite !length_app; cbn [length]; lia);
      reflexivity
     |discriminate].
  assert (Hv2 : advance dot i (advance_run x (S i) init)
                = {| startDot := Z.of_nat i; startPart := 0;
                     end_ := Z.of_nat (length path); matchedSlash := false;
                     preDotState := 0 |}).
  { destruct x as [|x0 x].
    - cbn [advance_run]. unfold advance, init. fields. cbn. f_equal.
      rewrite Hlen. cbn [length]. lia.
    - rewrite advance_run_plain by done. unfold advance, init. fields.
      cbn [Z.eqb]. fields.
      replace (Z.of_nat (S i + length (x0 :: x)) =? -1) with false
        by (symmetry; apply Z.eqb_neq; lia).
      cbn. f_equal. rewrite Hlen. done. }
  rewrite Hv2. clear Hv2.
  (* the run [c] *)
  rewrite (scan_run_at path c (dir ++ [slash]) ([dot] ++ x) i);
    [|subst path; by rewrite <- !app_assoc
     |subst i; rewrite !length_app; cbn [length]; lia
     |done].
  replace (length (dir ++ [slash])) with (S (length dir))
    by (rewrite !length_app; cbn [length]; lia).
  assert (Hv3 : advance_run c (S (length dir))
                  {| startDot := Z.of_nat i; startPart := 0;
                     end_ := Z.of_nat (length path); matchedSlash := false;
                     preDotState := 0 |}
                = {| startDot := Z.of_nat i; startPart := 0;
                     end_ := Z.of_nat (length path); matchedSlash := false;
                     preDotState :=
                       match c with
                       | [] => 0
                       | c0 :: _ => if decide (c0 = dot) then 1 else -1
                       end |}).
  { destruct c as [|c0 c]; [done|].
    rewrite advance_run_left; fields; [done|lia|lia]. }
  rewrite Hv3. clear Hv3.
  (* the slash *)
  rewrite scan_stop;
    [|subst path; rewrite lookup_app_r by lia;
      by rewrite Nat.sub_diag
     |done].
  fields. f_equal. lia.
Qed.

Lemma slice_drop (s : jsstring) (i : nat) :
  (i <= length s)%nat ->
  slice s (Z.of_nat i) (Z.of_nat (length s)) = drop i s.
Proof.
  intros Hi. unfold slice.
  destruct (Z.ltb_spec (Z.of_nat i) 0); [lia|].
  destruct (Z.ltb_spec (Z.of_nat (length s)) 0); [lia|].
  rewrite Z.min_l, Z.min_l by lia. rewrite Nat2Z.id.
  apply take_ge. rewrite length_drop. lia.
Qed.

(** The extension of [dir/c.x], [x] without dot: [.x], except for a
    component that starts with its only dot and for the component [..]. *)
Lemma extname_component dir c x :
  Forall (fun c => c <> slash) c ->
  Forall (fun c => c <> dot /\ c <> slash) x ->
  extname (dir ++ [slash] ++ c ++ [dot] ++ x)
  = if decide (c = [] \/ (c = [dot] /\ x = [])) then [] else dot :: x.
Proof.
  intros Hc Hx. unfold extname.
  pose proof (scan_component dir c x Hc Hx) as Hscan. cbv zeta in Hscan.
  rewrite Hscan. fields. clear Hscan.
  set (path := dir ++ [slash] ++ c ++ [dot] ++ x).
  assert (Hlen : length path = (length dir + 1 + length c + 1 + length x)%nat).
  { subst path. rewrite !length_app. cbn [length]. lia. }
  replace (Z.of_nat (length dir + 1 + length c) =? -1) with false
    by (symmetry; apply Z.eqb_neq; lia).
  replace (Z.of_nat (length path) =? -1) with false
    by (symmetry; apply Z.eqb_neq; lia).
  cbn [orb].
  assert (Hslice : slice path (Z.of_nat (length dir + 1 + length c))
                         (Z.of_nat (length path)) = dot :: x).
  { rewrite slice_drop by lia. subst path.
    rewrite (app_assoc dir), (app_assoc (dir ++ [slash])).
    rewrite drop_app_length'; [done|]. rewrite !length_app. cbn [length]. lia. }
  rewrite Hslice. clear Hslice.
  destruct c as [|c0 c].
  - rewrite decide_True by (by left). reflexivity.
  - destruct (decide (c0 = dot)) as [->|Hc0].
    + cbn [Z.eqb orb andb].
      destruct c as [|c1 c], x as [|x0 x].
      * rewrite decide_True by (right; done).
        rewrite Hlen. cbn [length].
        replace (Z.of_nat (length dir + 1 + 1) =?
                 Z.of_nat (length dir + 1 + 1 + 1 + 0) - 1) with true
          by (symmetry; apply Z.eqb_eq; lia).
        replace (Z.of_nat (length dir + 1 + 1) =?
                 Z.of_nat (length dir + 1) + 1) with true
          by (symmetry; apply Z.eqb_eq; lia).
        reflexivity.
      * rewrite decide_False by (intros [?|[_ ?]]; done).
        rewrite Hlen. cbn [length].
        replace (Z.of_nat (length dir + 1 + 1) =?
                 Z.of_nat (length dir + 1 + 1 + 1 + S (length x)) - 1)
          with false by (symmetry; apply Z.eqb_neq; lia).
        reflexivity.
      * rewrite decide_False by (intros [?|[? _]]; done).
        cbn [length].
        replace (Z.of_nat (length dir + 1 + S (S (length c))) =?
                 Z.of_nat (length dir + 1) + 1)
          with false by (symmetry; apply Z.eqb_neq; lia).
        by rewrite andb_false_r.
      * rewrite decide_False by (intros [?|[? _]]; done).
        cbn [length].
        replace (Z.of_nat (length dir + 1 + S (S (length c))) =?
                 Z.of_nat (length dir + 1) + 1)
          with false by (symmetry; apply Z.eqb_neq; lia).
        by rewrite andb_false_r.
    + cbn [Z.eqb orb andb].
      rewrite decide_False; [done|].
      intros [?|[Heq _]]; [done|]. injection Heq as ? ?. done.
Qed.

(** A last component without dot has no extension. *)
Lemma extname_plain_component dir b :
  Forall (fun c => c <> dot /\ c <> slash) b -> b <> [] ->
  extname (dir ++ [slash] ++ b) = [].
Proof.
  intros Hb Hne. unfold extname.
  set (path := dir ++ [slash] ++ b).
  assert (Hs : startDot (scan path (length path) init) = -1).
  { rewrite (scan_run_at path b (dir ++ [slash]) [] _ init);
      [|subst path; by rewrite app_nil_r, <- !app_assoc
       |subst path; rewrite !length_app; cbn [length]; lia
       |by apply no_slash_weaken].
    rewrite advance_run_plain by done.
    replace (length (dir ++ [slash])) with (S (length dir))
      by (rewrite !length_app; cbn [length]; lia).
    rewrite scan_stop; [done| |done].
    subst path. rewrite lookup_app_r by lia. by rewrite Nat.sub_diag. }
  rewrite Hs. reflexivity.
Qed.

(** Any string is without dot, or splits at its last dot. *)
Lemma last_dot (b : jsstring) :
  dot ∉ b \/ exists c x, b = c ++ [dot] ++ x /\ dot ∉ x.
Proof.
  induction b as [|c0 b IH]; [left; apply not_elem_of_nil|].
  destruct IH as [Hno|(c & x & -> & Hx)].
  - destruct (decide (c0 = dot)) as [->|Hne].
    + right. by exists [], b.
    + left. by intros [?|?]%elem_of_cons.
  - right. by exists (c0 :: c), x.
Qed.

End ExtnameFacts.

Import ExtnameFacts.

Lemma not_elem_Forall (a : code_unit) (l : jsstring) :
  a ∉ l -> Forall (fun c => c <> a) l.
Proof. intros Hn. apply Forall_forall. intros c Hc ->. done. Qed.

Lemma plain_Forall (x : jsstring) :
  dot ∉ x -> slash ∉ x -> Forall (fun c => c <> dot /\ c <> slash) x.
Proof.
  intros Hd Hs. apply Forall_forall. intros c Hc. split; intros ->; done.
Qed.

Lemma videos_dir : lit "videos/" = lit "videos" ++ [slash].
Proof. reflexivity. Qed.

Lemma extname_split rest c x :
  slash ∉ rest -> rest = c ++ [dot] ++ x -> dot ∉ x ->
  Path.extname (lit "videos/" ++ rest)
  = if decide (c = [] \/ (c = [dot] /\ x = [])) then [] else dot :: x.
Proof.
  intros Hs -> Hx. rewrite videos_dir, <- app_assoc.
  apply extname_component.
  - apply not_elem_Forall. intros Hin. apply Hs. apply elem_of_app. by left.
  - apply plain_Forall; [done|]. intros Hin. apply Hs.
    apply elem_of_app. right. apply elem_of_app. by right.
Qed.

Lemma extname_no_dot rest :
  slash ∉ rest -> dot ∉ rest -> Path.extname (lit "videos/" ++ rest) = [].
Proof.
  intros Hs Hd. destruct rest as [|c rest]; [vm_compute; reflexivity|].
  rewrite videos_dir, <- app_assoc.
  apply extname_plain_component; [by apply plain_Forall|done].
Qed.

Lemma renameKey_extension oldKey name :
  confined oldKey ->
  Path.extname oldKey <> [] ->
  sanitize name <> [] ->
  sanitize name <> Path.extname oldKey ->
  ~ (Path.extname oldKey = lit "." /\ sanitize name = lit "..") ->
  Path.extname (renameKey oldKey name) = Path.extname oldKey.
Proof.
  intros (rest & -> & Hrest) Hext Hs Hne Hdots.
  destruct (last_dot rest) as [Hno|(c & x & Hsplit & Hx)].
  { destruct Hext. by apply extname_no_dot. }
  assert (Hxs : slash ∉ x).
  { intros Hin. apply Hrest. rewrite Hsplit.
    apply elem_of_app. right. apply elem_of_app. by right. }
  pose proof (extname_split rest c x Hrest Hsplit Hx) as Hold.
  destruct (decide (c = [] \/ (c = [dot] /\ x = []))) as [|_];
    [by destruct Hext|].
  unfold renameKey, prefix_videos.
  rewrite Hold in *. clear Hold Hext.
  set (s := sanitize name) in *.
  assert (Hss : slash ∉ s) by apply sanitize_no_slash.
  destruct (endsWith s (dot :: x)) eqn:He.
  - apply endsWith_suffix in He as [c' Hc']. cbv beta iota.
    rewrite app_nil_r.
    rewrite (extname_split s c' x Hss Hc' Hx).
    rewrite decide_False; [done|]. intros [->|[-> ->]].
    + by destruct Hne.
    + by destruct Hdots.
  - rewrite (extname_split (s ++ dot :: x) s x); [| |done|done].
    + rewrite decide_False; [done|]. intros [?|[Hs1 ->]]; [done|].
      assert (endsWith s [dot] = true); [|congruence].
      apply endsWith_suffix. rewrite Hs1. by exists [].
    + intros [?|[?|?]%elem_of_cons]%elem_of_app; done.
Qed.

(** A successful rename keeps the extension of an old key that has no
    slash after its [videos/] prefix, with three exceptions: the old key
    has no extension, the sanitized display name is the extension itself,
    or the extension is a lone dot and the name two dots.  Outside these
    the new key has the old extension, whatever the display name. *)
Theorem rename_keeps_extension
    (r2Config : option R2Config) (ctx : Context) (req : RenameRequest)
    (w : World) (key name : jsstring) :
  let r := renameVideo r2Config ctx req w in
  let extension := Path.extname (params0 req) in
  result r = Returned (ok_response (RenameBody key)) ->
  newName req = JString name ->
  slash ∉ drop 7 (params0 req) ->
  extension <> [] ->
  sanitize name <> extension ->
  ~ (extension = lit "." /\ sanitize name = lit "..") ->
  Path.extname key = extension.
Proof.
  intros r extension Hok Hn Hold Hext Hne Hdots. subst r extension.
  destruct (renameVideo_path r2Config ctx req w) as
    [Hc|Hc Hv|Hc Hv Hs|name' Hc Hv Hn' Hk
     |name' m Hc Hv Hn' newKey Hne' H1|name' b1 m Hc Hv Hn' newKey Hne' H1 H2
     |name' b1 b2 m Hc Hv Hn' newKey Hne' H1 H2 H3
     |name' b1 b2 w3 Hc Hv Hn' newKey Hne' H1 H2 H3];
    cbn [result] in Hok; try (in_trace; done).
  assert (key = newKey) as -> by (in_trace; done). subst newKey.
  rewrite Hn in Hn'. injection Hn' as <-.
  apply renameKey_extension; try done.
  - unfold rename_rejected in Hv.
      apply orb_false_elim in Hv as [Hv _].
      apply orb_false_elim in Hv as [_ Hv]. apply negb_false_iff in Hv.
      apply startsWith_prefix in Hv as [rest Hrest].
      exists rest. split; [done|]. rewrite Hrest in Hold.
      by rewrite (drop_app_length' _ _ 7) in Hold.
  - unfold rename_rejected in Hv. apply orb_false_elim in Hv as [_ Hv].
    apply negb_false_iff in Hv. rewrite Hn in Hv. unfold json_truthy in Hv.
    unfold sanitize. destruct name; [discriminate|done].
Qed.

Lemma rename_keeps_extension_witness :
  Path.extname (lit "videos/My_Clip__.mp4") = lit ".mp4".
Proof.
  apply (rename_keeps_extension sample_config quiet rename_clip sample_world
           (lit "videos/My_Clip__.mp4") (lit "My Clip!!")).
  - vm_compute. reflexivity.
  - reflexivity.
  - apply (bool_decide_unpack _). vm_compute. exact I.
  - vm_compute. discriminate.
  - vm_compute. discriminate.
  - vm_compute. intros [_ H]. discriminate.
Defined.

(** The exceptions are real: a display name that is the extension itself
    gives a key without extension, which the listing then leaves out. *)
Example rename_to_the_extension :
  renameKey (lit "videos/1690000000-clip.mp4") (lit ".mp4")
  = lit "videos/.mp4" /\
  Path.extname (lit "videos/.mp4") = [] /\
  renameKey (lit "videos/clip.") (lit "..") = lit "videos/.." /\
  Path.extname (lit "videos/..") = [].
Proof. vm_compute. repeat split; reflexivity. Qed.

Example listVideos_sample :
  listVideos lower_ascii sample_config sample_world
    (lit "2025-03-02T00:00:00.000Z")
    (Returned (Some [listed_notes; listed_clip; listed_raw]))
  = ListJson
      [ {| Video.key := lit "videos/1690000000-clip.mp4";
           Video.name := lit "1690000000-clip.mp4";
           Video.size := 3;
           Video.lastModified := lit "2025-03-01T10:00:00.000Z";
           Video.url :=
             lit "https://cdn.example.org/videos/1690000000-clip.mp4";
           Video.uploader := lit "Ann" |};
        {| Video.key := lit "raw/B-ROLL.MOV";
           Video.name := lit "B-ROLL.MOV";
           Video.size := 0;
           Video.lastModified := lit "2025-03-02T00:00:00.000Z";
           Video.url := lit "https://cdn.example.org/raw/B-ROLL.MOV";
           Video.uploader := lit "Unknown" |} ].
Proof. vm_compute. reflexivity. Qed.

(** ** The listing *)

Lemma split_nonempty sep s : split sep s <> [].
Proof.
  destruct s as [|c s]; cbn; [done|].
  destruct (c =? sep)%N; [done|]. by destruct (split sep s).
Qed.

Lemma last_cons_nonempty {A} (x : A) (l : list A) :
  l <> [] -> last (x :: l) = last l.
Proof. by destruct l. Qed.

(** The last piece is what follows the last separator. *)
Lemma last_split sep s :
  exists piece before,
    last (split sep s) = Some piece /\ s = before ++ piece /\ (sep ∉ piece) /\
    (before = [] \/ exists b, before = b ++ [sep]).
Proof.
  induction s as [|c s (piece & before & Hl & Hs & Hp & Hb)].
  - exists [], []. repeat split; [apply not_elem_of_nil|by left].
  - cbn [split]. destruct (N.eqb_spec c sep) as [->|Hne].
    + rewrite last_cons_nonempty by apply split_nonempty.
      exists piece, (sep :: before). repeat split; [done|by rewrite Hs|done|].
      right. destruct Hb as [->|(b & ->)]; [by exists []|by exists (sep :: b)].
    + destruct (split sep s) as [|p ps] eqn:E;
        [by apply split_nonempty in E|].
      destruct ps as [|p' ps].
      * cbn in Hl. injection Hl as ->. exists (c :: piece), [].
        destruct Hb as [->|(b & ->)].
        -- cbn in Hs. subst s. repeat split; [|by left].
           intros [?|?]%elem_of_cons; done.
        -- exfalso. subst s.
           assert (Hlen : (1 < length (split sep ((b ++ [sep]) ++ piece)))%nat).
           { clear. induction b as [|c b IH]; cbn.
             - rewrite N.eqb_refl. cbn.
               pose proof (split_nonempty sep piece).
               destruct (split sep piece); [done|cbn; lia].
             - destruct (c =? sep)%N; cbn.
               + pose proof (split_nonempty sep ((b ++ [sep]) ++ piece)).
                 destruct (split sep ((b ++ [sep]) ++ piece)); [done|cbn; lia].
               + destruct (split sep ((b ++ [sep]) ++ piece)) as [|? ?];
                   cbn in *; lia. }
           rewrite E in Hlen. cbn in Hlen. lia.
      * exists piece, (c :: before).
        repeat split; [done|by rewrite Hs|done|].
        right. destruct Hb as [->|(b & ->)].
        -- exfalso. cbn in Hs. subst s.
           assert (Hone : length (split sep piece) = 1%nat).
           { clear -Hp. induction piece as [|x piece IH]; [done|]. cbn.
             destruct (N.eqb_spec x sep) as [->|?].
             - destruct Hp. apply list_elem_of_here.
             - rewrite not_elem_of_cons in Hp. destruct Hp as [_ Hp].
               specialize (IH Hp).
               destruct (split sep piece) as [|? [|? ?]]; cbn in *; done. }
           rewrite E in Hone. cbn in Hone. lia.
        -- by exists (c :: b).
Qed.

Section ListingFacts.
Variable toLowerCase : jsstring -> jsstring.

Lemma to_video_name r2Config md now_iso item k :
  S3Listing.Key item = Some k -> k <> [] ->
  let v := to_video r2Config md now_iso item in
  Video.name v <> [] /\ Video.name v `suffix_of` k /\
  (slash ∉ Video.name v \/ Video.name v = k).
Proof.
  intros Hk Hne v. subst v. unfold to_video. rewrite Hk. cbn.
  destruct (last_split slash k) as (piece & before & -> & Hs & Hp & _).
  destruct piece as [|c piece]; cbn.
  - repeat split; [done|done|by right].
  - repeat split; [done|by exists before|by left].
Qed.

Lemma to_video_confined_name r2Config md now_iso item rest :
  S3Listing.Key item = Some (lit "videos/" ++ rest) ->
  slash ∉ rest -> rest <> [] ->
  Video.name (to_video r2Config md now_iso item) = rest.
Proof.
  intros Hk Hs Hne. unfold to_video. rewrite Hk. cbn.
  destruct (last_split slash (lit "videos/" ++ rest))
    as (piece & before & -> & Heq & Hp & Hb).
  assert (piece = rest) as ->.
  { destruct Hb as [->|(b & ->)].
    - cbn in Heq. subst piece. destruct Hp.
      apply elem_of_app. left. vm_compute. do 6 right. left.
    - rewrite videos_dir, <- !app_assoc in Heq. cbn [app] in Heq.
      assert (Hgen : forall (a1 a2 r1 r2 : jsstring),
                 slash ∉ r1 -> slash ∉ r2 ->
                 a1 ++ slash :: r1 = a2 ++ slash :: r2 -> r1 = r2).
      { clear. induction a1 as [|x a1 IH]; intros [|y a2] r1 r2 H1 H2; cbn.
        - by intros [= ->].
        - intros [= <- ->]. destruct H1.
          apply elem_of_app. right. apply list_elem_of_here.
        - intros [= -> <-]. destruct H2.
          apply elem_of_app. right. apply list_elem_of_here.
        - intros [= -> Heq]. by apply (IH a2). }
      symmetry. by apply (Hgen _ _ _ _ Hs Hp Heq). }
  by destruct rest.
Qed.

(** What a successful listing shows.  Its keys are keys of the store's
    answer, in the store's order.  Each video has a non-empty key whose
    lower-cased extension is a video extension; its name is not empty and
    ends the key: the part after the last slash, or the whole key when
    that part is empty; its uploader is never empty, and is [Unknown]
    without a metadata row; its URL is empty exactly when no public URL is
    configured. *)
Theorem listing_shape
    (r2Config : option R2Config) (w : World) (now_iso : jsstring)
    (listed : outcome (option (list S3Listing.Item)))
    (videos : list Video.t) :
  listVideos toLowerCase r2Config w now_iso listed = ListJson videos ->
  exists Contents,
    listed = Returned Contents /\
    Video.key <$> videos
      `sublist_of` omap S3Listing.Key (default [] Contents) /\
    Forall (fun v =>
              Video.key v <> [] /\
              toLowerCase (Path.extname (Video.key v)) ∈ video_extensions /\
              Video.name v <> [] /\
              Video.name v `suffix_of` Video.key v /\
              (slash ∉ Video.name v \/ Video.name v = Video.key v) /\
              Video.uploader v <> [] /\
              (video_metadata w !! Video.key v = None ->
               Video.uploader v = lit "Unknown") /\
              (Video.url v = [] <-> publicUrl r2Config = []))
           videos.
Proof.
  unfold listVideos. destruct (negb _); [discriminate|].
  destruct listed as [Contents|message]; [|discriminate].
  intros [= <-]. exists Contents. split; [done|]. split.
  - induction (default [] Contents) as [|item items IH]; [constructor|].
    rewrite filter_cons. cbn [omap list_omap].
    destruct (decide (is_video toLowerCase item = true)) as [Hv|Hv].
    + unfold is_video in Hv.
      destruct (S3Listing.Key item) as [k|] eqn:Hk; [|discriminate].
      cbn [fmap list_fmap]. unfold to_video at 1. rewrite Hk. cbn.
      by apply sublist_skip.
    + destruct (S3Listing.Key item); [by apply sublist_cons|done].
  - apply Forall_fmap, Forall_forall. intros item [Hv _]%list_elem_of_filter.
    unfold is_video in Hv.
    destruct (S3Listing.Key item) as [k|] eqn:Hk; [|discriminate].
    destruct (truthy k) eqn:Ht; [|discriminate]. cbn [negb] in Hv.
    apply bool_decide_eq_true in Hv.
    assert (Hne : k <> []) by (by destruct k).
    pose proof (to_video_name r2Config (video_metadata w) now_iso item k
                  Hk Hne) as (Hn1 & Hn2 & Hn3).
    assert (Hkey : Video.key (to_video r2Config (video_metadata w) now_iso item)
                   = k) by (unfold to_video; by rewrite Hk).
    assert (Hupl : Video.uploader
                     (to_video r2Config (video_metadata w) now_iso item)
                   = match video_metadata w !! k with
                     | Some row =>
                       if truthy (uploader_name row) then uploader_name row
                       else lit "Unknown"
                     | None => lit "Unknown"
                     end) by (unfold to_video; by rewrite Hk).
    assert (Hurl : Video.url (to_video r2Config (video_metadata w) now_iso item)
                   = if truthy (publicUrl r2Config)
                     then publicUrl r2Config ++ lit "/" ++ k else [])
      by (unfold to_video; by rewrite Hk).
    unfold compose. cbn beta. rewrite Hkey, Hupl, Hurl.
    split; [done|]. split; [done|]. split; [done|]. split; [done|].
    split; [done|]. split; [|split].
    + destruct (video_metadata w !! k) as [row|]; [|done].
      destruct (truthy (uploader_name row)) eqn:Hu; [|done].
      by destruct (uploader_name row).
    + by intros ->.
    + destruct (publicUrl r2Config) as [|c p]; [done|]. cbn. split; discriminate.
Qed.
End ListingFacts.

Section ListingAfter.
Variable toLowerCase : jsstring -> jsstring.

Lemma listed_video r2Config w now_iso Contents item k :
  not_configured r2Config = false ->
  item ∈ Contents ->
  S3Listing.Key item = Some k -> k <> [] ->
  toLowerCase (Path.extname k) ∈ video_extensions ->
  exists videos,
    listVideos toLowerCase r2Config w now_iso (Returned (Some Contents))
    = ListJson videos /\
    to_video r2Config (video_metadata w) now_iso item ∈ videos.
Proof.
  intros Hc Hin Hk Hne Hext. unfold listVideos.
  unfold not_configured in Hc. apply orb_false_elim in Hc as [_ Hc].
  rewrite Hc. eexists. split; [reflexivity|].
  apply list_elem_of_fmap. exists item. split; [done|].
  apply list_elem_of_filter. split; [|done].
  unfold is_video. rewrite Hk. destruct k; [done|]. cbn.
  by apply bool_decide_eq_true.
Qed.

(** An upload that succeeded is listed as it was answered.  When the
    store's listing contains the key and its lower-cased extension is a
    video extension, the listing shows a video with that key, the URL of
    the upload's answer, the number-hyphen-name part of the key as its
    name, and the uploader the request named. *)
Theorem uploaded_video_is_listed
    (r2Config : option R2Config) (ctx : Context) (req : UploadRequest)
    (w : World) (key url now_iso : jsstring) (u : Uploader)
    (Contents : list S3Listing.Item) (item : S3Listing.Item) :
  let r := uploadVideo r2Config ctx req w in
  result r = Returned (ok_response (UploadBody key url)) ->
  named_uploader req = Some u ->
  item ∈ Contents ->
  S3Listing.Key item = Some key ->
  toLowerCase (Path.extname key) ∈ video_extensions ->
  exists videos v,
    listVideos toLowerCase r2Config (final r) now_iso
      (Returned (Some Contents)) = ListJson videos /\
    v ∈ videos /\
    Video.key v = key /\ Video.url v = url /\
    lit "videos/" ++ Video.name v = key /\
    Video.uploader v = uploader_name u.
Proof.
  intros r Hok Hu Hin Hk Hext.
  assert (Hc : not_configured r2Config = false).
  { subst r. destruct (upload_run_path r2Config ctx req w);
      cbn [result] in Hok; try (in_trace; done). }
  destruct (upload_answer_stores r2Config ctx req w) as [Hs _].
  destruct (Hs key url Hok) as (f & Hf & Hkey & Hurl & _ & _ & Hm).
  fold r in Hm. rewrite Hu in Hm.
  destruct (upload_key_form (Date_now (clock ctx)) (Multer.originalname f))
    as (rest & Hrest & Hall).
  rewrite <- Hkey in Hrest.
  assert (Hns : slash ∉ rest).
  { intros Hsl. rewrite Forall_forall in Hall.
    by apply slash_not_allow_listed, Hall. }
  assert (Hne : rest <> []).
  { intros ->. rewrite Hkey in Hrest. unfold upload_key in Hrest.
    apply app_inv_head in Hrest.
    destruct (of_number (Date_now (clock ctx))) eqn:E; [|done].
    destruct (of_number_shape (Date_now (clock ctx)))
      as (sg & dg & E2 & _ & Hd & _).
    rewrite E in E2. by destruct sg, dg. }
  destruct (listed_video r2Config (final r) now_iso Contents item key
              Hc Hin Hk) as (videos & Hl & Hv); [by rewrite Hrest|done|].
  exists videos, (to_video r2Config (video_metadata (final r)) now_iso item).
  split; [done|]. split; [done|].
  rewrite (to_video_confined_name r2Config _ now_iso item rest)
    by (by rewrite <- ?Hrest).
  unfold to_video. rewrite Hk. cbn. rewrite Hm, lookup_insert_eq.
  repeat split; [by rewrite Hurl|done|].
  unfold named_uploader in Hu.
  destruct (uploaderId req) as [uid|]; [|done].
  destruct (uploaderName req) as [uname|]; [|done].
  destruct (truthy uid && truthy uname) eqn:Ht; [|done].
  injection Hu as <-. cbn. apply andb_true_iff in Ht as [_ ->]. done.
Qed.

(** A rename that succeeded is listed under the new key with the
    attribution of the old one.  When the old key had a metadata row with
    a non-empty uploader name and the store's listing contains the new key
    with a video extension, the listing shows the new key with that
    uploader; and a video still listed under the old key has lost it. *)
Theorem renamed_video_is_listed
    (r2Config : option R2Config) (ctx : Context) (req : RenameRequest)
    (w : World) (key now_iso : jsstring) (row : Uploader)
    (Contents : list S3Listing.Item) (item : S3Listing.Item) :
  let r := renameVideo r2Config ctx req w in
  let oldKey := params0 req in
  result r = Returned (ok_response (RenameBody key)) ->
  key <> oldKey ->
  video_metadata w !! oldKey = Some row ->
  uploader_name row <> [] ->
  item ∈ Contents ->
  S3Listing.Key item = Some key ->
  toLowerCase (Path.extname key) ∈ video_extensions ->
  exists videos v,
    listVideos toLowerCase r2Config (final r) now_iso
      (Returned (Some Contents)) = ListJson videos /\
    v ∈ videos /\
    Video.key v = key /\ Video.uploader v = uploader_name row /\
    bucket (final r) !! oldKey = None /\
    (forall v', v' ∈ videos -> Video.key v' = oldKey ->
                Video.uploader v' = lit "Unknown").
Proof.
  intros r oldKey Hok Hne Hrow Hname Hin Hk Hext.
  assert (Hc : not_configured r2Config = false).
  { subst r. destruct (renameVideo_path r2Config ctx req w);
      cbn [result] in Hok; try (in_trace; done). }
  assert (Hkne : key <> []).
  { subst r. destruct (renameVideo_path r2Config ctx req w);
      cbn [result] in Hok; in_trace; done. }
  destruct (rename_success_stores r2Config ctx req w key Hok Hne)
    as (object & Ho & Hb & Hm & _).
  fold r oldKey in Hb, Hm. rewrite Hrow in Hm.
  destruct (listed_video r2Config (final r) now_iso Contents item key
              Hc Hin Hk Hkne Hext) as (videos & Hl & Hv).
  exists videos, (to_video r2Config (video_metadata (final r)) now_iso item).
  split; [done|]. split; [done|]. split; [|split; [|split]].
  - unfold to_video. by rewrite Hk.
  - unfold to_video. rewrite Hk. cbn. rewrite Hm, lookup_insert_eq.
    by destruct (uploader_name row).
  - rewrite Hb. apply lookup_delete_eq.
  - intros v' Hv' Hkey'. unfold listVideos in Hl.
    destruct (negb _); [discriminate|]. injection Hl as <-.
    apply list_elem_of_fmap in Hv' as (item' & -> & _).
    unfold to_video in *. cbn in *. rewrite Hkey', Hm.
    rewrite lookup_insert_ne by done. by rewrite lookup_delete_eq.
Qed.
End ListingAfter.

Lemma listing_shape_witness :
  exists Contents,
    Returned (Some sample_listing) = Returned Contents /\
    Video.key <$> [ to_video sample_config (video_metadata sample_world)
                      (lit "2025-03-02T00:00:00.000Z") listed_clip;
                    to_video sample_config (video_metadata sample_world)
                      (lit "2025-03-02T00:00:00.000Z") listed_raw ]
      `sublist_of` omap S3Listing.Key (default [] Contents).
Proof.
  destruct (listing_shape lower_ascii sample_config sample_world
              (lit "2025-03-02T00:00:00.000Z")
              (Returned (Some sample_listing))
              [ to_video sample_config (video_metadata sample_world)
                  (lit "2025-03-02T00:00:00.000Z") listed_clip;
                to_video sample_config (video_metadata sample_world)
                  (lit "2025-03-02T00:00:00.000Z") listed_raw ])
    as (Contents & Hc & Hs & _).
  - vm_compute. reflexivity.
  - by exists Contents.
Defined.

Lemma uploaded_video_is_listed_witness :
  exists videos v,
    listVideos lower_ascii sample_config
      (final (uploadVideo sample_config later upload_clip sample_world))
      (lit "2025-03-02T00:00:00.000Z")
      (Returned (Some [listed_clip; listed_upload])) = ListJson videos /\
    v ∈ videos /\
    Video.key v = lit "videos/1700000000-clip.mp4" /\
    Video.uploader v = uploader_name ann.
Proof.
  pose proof (uploaded_video_is_listed lower_ascii sample_config later
                upload_clip sample_world (lit "videos/1700000000-clip.mp4")
                (lit "https://cdn.example.org/videos/1700000000-clip.mp4")
                (lit "2025-03-02T00:00:00.000Z") ann
                [listed_clip; listed_upload] listed_upload) as H.
  cbv zeta in H.
  assert (H1 : result (uploadVideo sample_config later upload_clip
                         sample_world)
               = Returned (ok_response
                             (UploadBody
                                (lit "videos/1700000000-clip.mp4")
                                (lit "https://cdn.example.org/videos/1700000000-clip.mp4"))))
    by (vm_compute; reflexivity).
  assert (H2 : named_uploader upload_clip = Some ann)
    by (vm_compute; reflexivity).
  assert (H3 : listed_upload ∈ [listed_clip; listed_upload])
    by apply list_elem_of_further, list_elem_of_here.
  assert (H4 : S3Listing.Key listed_upload
               = Some (lit "videos/1700000000-clip.mp4")) by reflexivity.
  assert (H5 : lower_ascii (Path.extname (lit "videos/1700000000-clip.mp4"))
               ∈ video_extensions)
    by (apply (bool_decide_unpack _); vm_compute; exact I).
  destruct (H H1 H2 H3 H4 H5) as (videos & v & Hl & Hv & Hk & _ & _ & Hu).
  exists videos, v. repeat split; assumption.
Defined.

Lemma renamed_video_is_listed_witness :
  exists videos v,
    listVideos lower_ascii sample_config
      (final (renameVideo sample_config quiet rename_clip sample_world))
      (lit "2025-03-02T00:00:00.000Z")
      (Returned (Some [listed_renamed])) = ListJson videos /\
    v ∈ videos /\
    Video.key v = lit "videos/My_Clip__.mp4" /\
    Video.uploader v = uploader_name ann.
Proof.
  pose proof (renamed_video_is_listed lower_ascii sample_config quiet
                rename_clip sample_world (lit "videos/My_Clip__.mp4")
                (lit "2025-03-02T00:00:00.000Z") ann
                [listed_renamed] listed_renamed) as H.
  cbv zeta in H.
  assert (H1 : result (renameVideo sample_config quiet rename_clip
                         sample_world)
               = Returned (ok_response
                             (RenameBody (lit "videos/My_Clip__.mp4"))))
    by (vm_compute; reflexivity).
  assert (H2 : lit "videos/My_Clip__.mp4" <> params0 rename_clip)
    by (vm_compute; discriminate).
  assert (H3 : video_metadata sample_world !! params0 rename_clip = Some ann)
    by (vm_compute; reflexivity).
  assert (H4 : uploader_name ann <> []) by (vm_compute; discriminate).
  assert (H5 : listed_renamed ∈ [listed_renamed]) by apply list_elem_of_here.
  assert (H6 : S3Listing.Key listed_renamed
               = Some (lit "videos/My_Clip__.mp4")) by reflexivity.
  assert (H7 : lower_ascii (Path.extname (lit "videos/My_Clip__.mp4"))
               ∈ video_extensions)
    by (apply (bool_decide_unpack _); vm_compute; exact I).
  destruct (H H1 H2 H3 H4 H5 H6 H7) as (videos & v & Hl & Hv & Hk & Hu & _).
  exists videos, v. repeat split; assumption.
Defined.

(** ** The client's file names *)

Example client_names :
  Client.nameWithoutExt (lit "holiday.2024.mp4") = lit "holiday.2024" /\
  Client.extension (lit "holiday.2024.mp4") = lit ".mp4" /\
  Client.finalFileName (lit "holiday.2024.mp4") (lit "Beach day")
  = lit "Beach day.mp4" /\
  Client.nameWithoutExt (lit "notes") = lit "notes" /\
  Client.extension (lit "notes") = lit "notes" /\
  Client.nameWithoutExt (lit "clip.") = lit "clip." /\
  Client.extension (lit "clip.") = lit ".".
Proof. vm_compute. repeat split; reflexivity. Qed.

(** A file whose name ends with its extension twice loses one of them. *)
Example doubled_extension :
  Client.nameWithoutExt (lit "a.mp4.mp4") = lit "a.mp4" /\
  Client.finalFileName (lit "a.mp4.mp4") (lit "a.mp4") = lit "a.mp4".
Proof. vm_compute. repeat split; reflexivity. Qed.

Module ClientFacts.
Import Client.

Lemma lastIndexOf_absent (s : jsstring) c :
  c ∉ s -> lastIndexOf s c = -1.
Proof.
  induction s as [|d s IH]; [done|]. intros Hn.
  apply not_elem_of_cons in Hn as [Hne Hn]. cbn. rewrite (IH Hn). cbn.
  destruct (N.eqb_spec d c); [congruence|done].
Qed.

Lemma lastIndexOf_split (front tail : jsstring) c :
  c ∉ tail ->
  lastIndexOf (front ++ c :: tail) c = Z.of_nat (length front).
Proof.
  intros Hn. induction front as [|d front IH].
  - cbn. rewrite (lastIndexOf_absent _ _ Hn). cbn. by rewrite N.eqb_refl.
  - cbn [app lastIndexOf length]. rewrite IH.
    destruct (Z.eqb_spec (Z.of_nat (length front)) (-1)); lia.
Qed.

Lemma extension_no_dot (fileName : jsstring) :
  dot ∉ fileName -> extension fileName = fileName.
Proof.
  intros Hn. unfold extension, substring. rewrite (lastIndexOf_absent _ _ Hn).
  replace (Z.to_nat _) with 0%nat by lia. done.
Qed.

Lemma extension_split (front tail : jsstring) :
  dot ∉ tail -> extension (front ++ dot :: tail) = dot :: tail.
Proof.
  intros Hn. unfold extension, substring. rewrite (lastIndexOf_split _ _ _ Hn).
  rewrite length_app. cbn [length].
  replace (Z.to_nat _) with (length front) by lia.
  by rewrite drop_app_length.
Qed.

Lemma extension_suffix (fileName : jsstring) :
  extension fileName `suffix_of` fileName.
Proof. unfold extension, substring. apply suffix_drop. Qed.

Lemma matches_extension_spec (s : jsstring) :
  matches_extension s = true <->
  exists tail, s = dot :: tail /\ tail <> [] /\ (dot ∉ tail) /\ (slash ∉ tail).
Proof.
  split.
  - destruct s as [|c [|t tail]]; cbn; try discriminate.
    intros [Hc Ht]%andb_true_iff. apply N.eqb_eq in Hc as ->.
    exists (t :: tail). split; [done|]. split; [done|].
    change (forallb in_tail_class (t :: tail) = true) in Ht.
    rewrite forallb_forall in Ht.
    split; intros Hin%list_elem_of_In%Ht; unfold in_tail_class in Hin;
      [rewrite N.eqb_refl, andb_false_r in Hin
      |rewrite N.eqb_refl in Hin]; discriminate.
  - intros (tail & -> & Hne & Hd & Hs). destruct tail as [|t tail]; [done|].
    cbn [matches_extension]. rewrite N.eqb_refl. cbn [andb].
    apply forallb_forall. intros c Hc%list_elem_of_In. unfold in_tail_class.
    destruct (N.eqb_spec c slash) as [->|]; [done|].
    destruct (N.eqb_spec c dot) as [->|]; done.
Qed.

Lemma nameWithoutExt_no_dot (s : jsstring) :
  dot ∉ s -> nameWithoutExt s = s.
Proof.
  induction s as [|c s IH]; [done|]. intros [Hne Hn]%not_elem_of_cons.
  cbn [nameWithoutExt].
  destruct (matches_extension (c :: s)) eqn:E.
  - apply matches_extension_spec in E as (tail & [= -> _] & _). done.
  - by rewrite IH.
Qed.

(** The regular expression matches at the last dot or nowhere. *)
Lemma nameWithoutExt_split (front tail : jsstring) :
  dot ∉ tail ->
  nameWithoutExt (front ++ dot :: tail)
  = if decide (tail <> [] /\ slash ∉ tail) then front
    else front ++ dot :: tail.
Proof.
  intros Hn. induction front as [|c front IH].
  - cbn [app nameWithoutExt].
    destruct (matches_extension (dot :: tail)) eqn:E.
    + apply matches_extension_spec in E as (t & [= <-] & Hne & _ & Hs).
      by rewrite decide_True.
    + rewrite decide_False.
      * by rewrite (nameWithoutExt_no_dot _ Hn).
      * intros [Hne Hs]. apply not_true_iff_false in E. apply E.
        apply matches_extension_spec. by exists tail.
  - cbn [app nameWithoutExt].
    destruct (matches_extension (c :: front ++ dot :: tail)) eqn:E.
    + apply matches_extension_spec in E as (t & [= -> <-] & _ & Hd & _).
      destruct Hd. apply elem_of_app. right. apply elem_of_cons. by left.
    + rewrite IH. by destruct (decide _).
Qed.

End ClientFacts.
Import ClientFacts.

Lemma sanitize_app (a b : jsstring) :
  sanitize (a ++ b) = sanitize a ++ sanitize b.
Proof. unfold sanitize. apply map_app. Qed.

Lemma sanitize_keeps_dot (s : jsstring) : dot ∉ s -> dot ∉ sanitize s.
Proof.
  intros Hn. unfold sanitize. change (map replace_unit s) with (replace_unit <$> s).
  intros (c & Hc & Hin)%list_elem_of_fmap. apply Hn.
  unfold replace_unit in Hc. destruct (in_class c); [by subst|discriminate].
Qed.

Lemma of_number_no_slash z : slash ∉ of_number z.
Proof.
  destruct (of_number_shape z) as (sign & digits & -> & Hsign & _ & Hd).
  intros [Hin|Hin]%elem_of_app.
  - destruct Hsign as [-> | ->]; [by apply not_elem_of_nil in Hin|].
    apply list_elem_of_singleton in Hin. discriminate.
  - rewrite Forall_forall in Hd. apply Hd in Hin. discriminate.
Qed.

Lemma of_number_nonempty z : of_number z <> [].
Proof.
  destruct (of_number_shape z) as (sign & digits & -> & _ & Hne & _).
  intros [_ ?]%app_eq_nil. done.
Qed.

(** The key of an upload whose name is [front.tail]: its extension is the
    sanitized [.tail]. *)
Lemma upload_key_extension now (front tail : jsstring) :
  dot ∉ tail ->
  Path.extname (upload_key now (front ++ dot :: tail))
  = dot :: sanitize tail.
Proof.
  intros Hn. unfold upload_key. cbv zeta.
  rewrite sanitize_app. change (sanitize (dot :: tail)) with (dot :: sanitize tail).
  rewrite videos_dir.
  set (c := of_number now ++ lit "-" ++ sanitize front).
  replace ((lit "videos" ++ [slash]) ++ of_number now ++ lit "-" ++
           sanitize front ++ dot :: sanitize tail)
    with (lit "videos" ++ [slash] ++ c ++ [dot] ++ sanitize tail)
    by (subst c; by rewrite <- !app_assoc).
  rewrite extname_component.
  - rewrite decide_False; [done|].
    assert (Hlen : (2 <= length c)%nat).
    { subst c. change (lit "-") with [45%N]. rewrite !length_app.
      pose proof (of_number_nonempty now). destruct (of_number now); [done|].
      cbn [length]. lia. }
    intros [->| [-> _]]; cbn in Hlen; lia.
  - apply not_elem_Forall. subst c. intros [Hin|[Hin|Hin]%elem_of_app]%elem_of_app.
    + by apply of_number_no_slash in Hin.
    + apply list_elem_of_singleton in Hin. discriminate.
    + by apply sanitize_no_slash in Hin.
  - apply plain_Forall; [by apply sanitize_keeps_dot|apply sanitize_no_slash].
Qed.

(** The name proposed for a selected file, sent back unchanged, gives the
    file's own name, except when that name ends with its extension twice:
    then one copy is dropped. *)
Theorem suggested_name_round_trip (fileName : jsstring) :
  let name := Client.nameWithoutExt fileName in
  let final := Client.finalFileName fileName name in
  final = fileName \/
  (final = name /\ fileName = name ++ Client.extension fileName /\
   Client.extension fileName <> [] /\
   Client.extension fileName `suffix_of` name).
Proof.
  intros name final. subst name final. unfold Client.finalFileName. cbv zeta.
  destruct (last_dot fileName) as [Hno|(front & tail & -> & Hn)].
  - rewrite (nameWithoutExt_no_dot _ Hno), (extension_no_dot _ Hno).
    left. replace (endsWith fileName fileName) with true; [done|].
    symmetry. by apply endsWith_suffix.
  - change ([dot] ++ tail) with (dot :: tail).
    rewrite (nameWithoutExt_split _ _ Hn), (extension_split _ _ Hn).
    destruct (decide _) as [[Hne Hs]|Hnot].
    + destruct (endsWith front (dot :: tail)) eqn:E; [right|by left].
      apply endsWith_suffix in E. done.
    + left. replace (endsWith _ _) with true; [done|].
      symmetry. apply endsWith_suffix. by apply suffix_app_r.
Qed.

Lemma of_number_no_dot z : dot ∉ of_number z.
Proof.
  destruct (of_number_shape z) as (sign & digits & -> & Hsign & _ & Hd).
  intros [Hin|Hin]%elem_of_app.
  - destruct Hsign as [-> | ->]; [by apply not_elem_of_nil in Hin|].
    apply list_elem_of_singleton in Hin. discriminate.
  - rewrite Forall_forall in Hd. apply Hd in Hin. discriminate.
Qed.

(** The key the upload handler builds keeps the extension of the
    [originalname] it receives, sanitized: none when the name has no dot,
    otherwise the dot and the sanitized code units after the last dot,
    whatever the clock reads. *)
Theorem upload_key_keeps_extension (now : Z) (originalname : jsstring) :
  (dot ∉ originalname ->
   Path.extname (upload_key now originalname) = []) /\
  (forall front tail,
      originalname = front ++ dot :: tail -> dot ∉ tail ->
      Path.extname (upload_key now originalname) = dot :: sanitize tail).
Proof.
  split.
  - intros Hd. unfold upload_key. cbv zeta. apply extname_no_dot.
    + intros [Hin|[Hin|Hin]%elem_of_app]%elem_of_app.
      * by apply of_number_no_slash in Hin.
      * apply list_elem_of_singleton in Hin. discriminate.
      * by apply sanitize_no_slash in Hin.
    + intros [Hin|[Hin|Hin]%elem_of_app]%elem_of_app.
      * by apply of_number_no_dot in Hin.
      * apply list_elem_of_singleton in Hin. discriminate.
      * by apply sanitize_keeps_dot in Hin.
  - intros front tail -> Hd. by apply upload_key_extension.
Qed.

Lemma upload_key_keeps_extension_witness :
  Path.extname (upload_key 1700000000 (lit "notes")) = [] /\
  Path.extname (upload_key 1700000000 (lit "holiday.2024.m p4"))
  = lit ".m_p4".
Proof.
  split.
  - apply (proj1 (upload_key_keeps_extension 1700000000 (lit "notes"))).
    apply (bool_decide_unpack _). vm_compute. exact I.
  - apply (proj2 (upload_key_keeps_extension 1700000000
                    (lit "holiday.2024.m p4"))
             (lit "holiday.2024") (lit "m p4")).
    + reflexivity.
    + apply (bool_decide_unpack _). vm_compute. exact I.
Defined.

(** ** Pages of the video grid *)

Example pages_sample :
  Pages.totalPages (seq 0 13) = 3 /\
  Pages.paginatedVideos (seq 0 13) 1 = seq 0 6 /\
  Pages.paginatedVideos (seq 0 13) 3 = [12%nat] /\
  Pages.paginatedVideos (seq 0 13) 4 = [] /\
  Pages.totalPages (@nil nat) = 0.
Proof. vm_compute. repeat split; reflexivity. Qed.

Module PagesFacts.
Import Pages.

Lemma totalPages_bounds {A} (l : list A) :
  Z.of_nat (length l) <= totalPages l * 6 < Z.of_nat (length l) + 6.
Proof.
  unfold totalPages, ceil_div, itemsPerPage.
  pose proof (Z.div_mod (- Z.of_nat (length l)) 6 ltac:(lia)).
  pose proof (Z.mod_pos_bound (- Z.of_nat (length l)) 6 ltac:(lia)). lia.
Qed.

Lemma page_take_drop {A} (l : list A) (p : nat) :
  paginatedVideos l (Z.of_nat (S p)) = take 6 (drop (p * 6) l).
Proof.
  unfold paginatedVideos, slice, itemsPerPage. cbv zeta.
  replace (Z.of_nat (S p) - 1) with (Z.of_nat p) by lia.
  replace (Z.of_nat p * 6 <? 0) with false by (symmetry; apply Z.ltb_ge; lia).
  replace (Z.of_nat (S p) * 6 <? 0) with false
    by (symmetry; apply Z.ltb_ge; lia).
  destruct (decide (p * 6 <= length l)%nat) as [Hle|Hgt].
  - replace (Z.to_nat (Z.min (Z.of_nat p * 6) (Z.of_nat (length l))))
      with (p * 6)%nat by lia.
    destruct (decide (S p * 6 <= length l)%nat) as [Hle'|Hgt'].
    + f_equal. lia.
    + rewrite !take_ge; [done| |]; rewrite length_drop; lia.
  - rewrite !drop_ge by lia. by rewrite !take_nil.
Qed.

Lemma pages_take {A} (l : list A) (k : nat) :
  concat ((fun p => paginatedVideos l (Z.of_nat p)) <$> seq 1 k)
  = take (k * 6) l.
Proof.
  induction k as [|k IH]; [by rewrite take_0|].
  rewrite seq_S, fmap_app, concat_app, IH. cbn [fmap list_fmap concat].
  rewrite app_nil_r, page_take_drop, take_take_drop. f_equal. lia.
Qed.

End PagesFacts.

(** The pages [1 .. totalPages] cut the list of videos into consecutive
    pieces: put one after the other they give the list back; each of them
    has between one and six videos; a page after the last one is empty. *)
Theorem pages_partition {A} (filteredVideos : list A) :
  let pages := Z.to_nat (Pages.totalPages filteredVideos) in
  concat ((fun p => Pages.paginatedVideos filteredVideos (Z.of_nat p))
            <$> seq 1 pages) = filteredVideos /\
  (forall p, 1 <= p <= Pages.totalPages filteredVideos ->
             (1 <= length (Pages.paginatedVideos filteredVideos p) <= 6)%nat) /\
  (forall p, Pages.totalPages filteredVideos < p ->
             Pages.paginatedVideos filteredVideos p = []).
Proof.
  intros pages. subst pages.
  pose proof (PagesFacts.totalPages_bounds filteredVideos) as Hb.
  repeat split.
  - rewrite PagesFacts.pages_take. apply take_ge. lia.
  - destruct (Z.to_nat p) as [|q] eqn:E; [lia|].
    replace p with (Z.of_nat (S q)) by lia.
    rewrite PagesFacts.page_take_drop, length_take, length_drop. lia.
  - destruct (Z.to_nat p) as [|q] eqn:E; [lia|].
    replace p with (Z.of_nat (S q)) by lia.
    rewrite PagesFacts.page_take_drop, length_take, length_drop. lia.
  - intros p Hp. destruct (Z.to_nat p) as [|q] eqn:E.
    { pose proof (PagesFacts.totalPages_bounds filteredVideos). lia. }
    replace p with (Z.of_nat (S q)) by lia.
    rewrite PagesFacts.page_take_drop, drop_ge by lia. apply take_nil.
Qed.

(** ** What a delete and a rename can touch *)

(** Whatever its answer and whatever fails, a delete leaves the ledger as
    it is and touches no key but its own, in the bucket and in the
    metadata table; and it adds nothing: what the stores hold afterwards
    they held before. *)
Theorem delete_frame
    (r2Config : option R2Config) (ctx : Context) (key : jsstring)
    (w : World) :
  let r := deleteVideo r2Config ctx key w in
  upload_history (final r) = upload_history w /\
  (forall k, k <> key ->
             bucket (final r) !! k = bucket w !! k /\
             video_metadata (final r) !! k = video_metadata w !! k) /\
  bucket (final r) ⊆ bucket w /\
  video_metadata (final r) ⊆ video_metadata w.
Proof.
  intros r. subst r.
  destruct (delete_stores r2Config ctx key w) as (Hb & Hm & Hh).
  cbv zeta in *. split; [done|]. split; [|split].
  - intros k Hk. split.
    + destruct Hb as [-> | ->]; [done|]. by apply lookup_delete_ne.
    + destruct Hm as [-> | ->]; [done|]. by apply lookup_delete_ne.
  - destruct Hb as [-> | ->]; [done|]. apply delete_subseteq.
  - destruct Hm as [-> | ->]; [done|]. apply delete_subseteq.
Qed.

(** Whatever its answer and whatever fails, a rename leaves the ledger as
    it is and touches no key but the old one and the computed new one, in
    the bucket and in the metadata table; and when the bucket holds
    nothing at the old key, it changes nothing at all. *)
Theorem rename_frame
    (r2Config : option R2Config) (ctx : Context) (req : RenameRequest)
    (w : World) :
  let r := renameVideo r2Config ctx req w in
  let oldKey := params0 req in
  upload_history (final r) = upload_history w /\
  (forall k,
      k <> oldKey ->
      (forall name, newName req = JString name ->
                    k <> renameKey oldKey name) ->
      bucket (final r) !! k = bucket w !! k /\
      video_metadata (final r) !! k = video_metadata w !! k) /\
  (bucket w !! oldKey = None -> final r = w).
Proof.
  intros r oldKey. subst r oldKey.
  destruct (rename_stores r2Config ctx req w) as (Hh & Hs).
  cbv zeta in *. split; [done|]. split.
  - intros k Hold Hnew.
    destruct Hs as [-> |(name & object & Hn & Ho & Hb & Hm)]; [done|].
    specialize (Hnew name Hn). split.
    + destruct Hb as [-> | ->].
      * by rewrite lookup_insert_ne.
      * by rewrite lookup_delete_ne, lookup_insert_ne.
    + destruct Hm as [-> |(row & Hrow & ->)]; [done|].
      by rewrite lookup_insert_ne, lookup_delete_ne.
  - intros Hnone.
    destruct Hs as [-> |(name & object & Hn & Ho & _)]; [done|].
    rewrite Ho in Hnone. discriminate.
Qed.

Lemma pages_partition_witness :
  (1 <= length (Pages.paginatedVideos (seq 0 13) 3) <= 6)%nat /\
  Pages.paginatedVideos (seq 0 13) 4 = [].
Proof.
  pose proof (pages_partition (seq 0 13)) as H. cbv zeta in H.
  destruct H as (_ & Hin & Hout). split.
  - apply Hin. vm_compute. split; discriminate.
  - apply Hout. vm_compute. reflexivity.
Defined.

Lemma delete_frame_witness :
  let r := deleteVideo sample_config quiet (lit "videos/1690000000-clip.mp4")
             two_videos in
  bucket (final r) !! lit "videos/intro.mp4" = Some intro /\
  video_metadata (final r) !! lit "videos/intro.mp4" = Some bob.
Proof.
  pose proof (delete_frame sample_config quiet
                (lit "videos/1690000000-clip.mp4") two_videos) as H.
  cbv zeta in H. destruct H as (_ & H & _).
  destruct (H (lit "videos/intro.mp4")) as [Hb Hm].
  - vm_compute. discriminate.
  - cbv zeta. split.
    + etransitivity; [exact Hb|]. vm_compute. reflexivity.
    + etransitivity; [exact Hm|]. vm_compute. reflexivity.
Defined.

Lemma rename_frame_witness :
  let r := renameVideo sample_config quiet rename_clip two_videos in
  bucket (final r) !! lit "videos/intro.mp4" = Some intro /\
  video_metadata (final r) !! lit "videos/intro.mp4" = Some bob.
Proof.
  pose proof (rename_frame sample_config quiet rename_clip two_videos) as H.
  cbv zeta in H. destruct H as (_ & H & _).
  destruct (H (lit "videos/intro.mp4")) as [Hb Hm].
  - vm_compute. discriminate.
  - intros name [= <-]. vm_compute. discriminate.
  - cbv zeta. split.
    + etransitivity; [exact Hb|]. vm_compute. reflexivity.
    + etransitivity; [exact Hm|]. vm_compute. reflexivity.
Defined.
